(** * Resume matcher: a shallow embedding of [app.py]

    The script ranks uploaded resumes against a job description: each
    upload is turned into text ([extract_text]), the job description and
    the non-empty texts are vectorised with scikit-learn's
    [TfidfVectorizer], every resume is scored by cosine similarity against
    the job description, and the scores are sorted in descending order and
    shown with their rank.

    Python values are modelled as follows.
    - [str] is a list of Unicode code points ([N]); [lit] embeds an ASCII
      literal.
    - a [float] is an IEEE 754 binary64 number, [spec_float] of the
      standard library with [prec = 53] and [emax = 1024].
    - an exception is represented by its message, [str(e)].
    - the parsers (pdfplumber, python-docx) and scikit-learn are outside the
      repository: an uploaded file carries what each parser answers on it,
      and scikit-learn is the interface [Sklearn].
    - Streamlit calls and the call to [fit_transform] are recorded, in
      order, in a trace of events. The page set-up, the upload widgets,
      the spinner, the headings and the score guide emit nothing that
      depends on the data and are left out; the download button is
      recorded with the rows given to [create_downloadable_data], whose
      CSV encoding is done by pandas. *)

From Stdlib Require Import List ZArith NArith Lia Bool Ascii.
From Stdlib Require String.
Import String.StringSyntax.
From Stdlib Require Import Permutation Sorted.
From Stdlib Require Import QArith Qabs.
Close Scope Q_scope.
From Stdlib Require Import Floats.SpecFloat.
Import ListNotations.

(** ** Python strings *)

Module Py.

Definition char := N.
Definition str := list char.

(** An ASCII literal of the source. *)
Definition lit (s : String.string) : str :=
  map N_of_ascii (String.list_ascii_of_string s).

Arguments lit s%_string_scope.

(** [bool(s)] for a string: true iff it is not empty. *)
Definition truthy (s : str) : bool :=
  match s with
  | [] => false
  | _ :: _ => true
  end.

(** [bool(l)] for a list. *)
Definition truthy_list {A} (l : list A) : bool :=
  match l with
  | [] => false
  | _ :: _ => true
  end.

(** [c.isspace()] for one code point: the code points CPython classifies as
    whitespace. *)
Definition isspace (c : char) : bool :=
  ((9 <=? c) && (c <=? 13)
   || (28 <=? c) && (c <=? 32)
   || (c =? 133) || (c =? 160) || (c =? 5760)
   || (8192 <=? c) && (c <=? 8202)
   || (c =? 8232) || (c =? 8233) || (c =? 8239) || (c =? 8287)
   || (c =? 12288))%N.

(** [s.lstrip()], [s.rstrip()], [s.strip()]. *)
Fixpoint lstrip (s : str) : str :=
  match s with
  | [] => []
  | c :: s' => if isspace c then lstrip s' else s
  end.

Definition rstrip (s : str) : str := rev (lstrip (rev s)).

Definition strip (s : str) : str := rstrip (lstrip s).

(** [sep.join(parts)]. *)
Fixpoint join (sep : str) (parts : list str) : str :=
  match parts with
  | [] => []
  | [p] => p
  | p :: ps => p ++ sep ++ join sep ps
  end.

Fixpoint str_eqb (a b : str) : bool :=
  match a, b with
  | [], [] => true
  | x :: a', y :: b' => (x =? y)%N && str_eqb a' b'
  | _, _ => false
  end.

Fixpoint startswith (s pre : str) : bool :=
  match pre, s with
  | [], _ => true
  | p :: pre', c :: s' => (c =? p)%N && startswith s' pre'
  | _ :: _, [] => false
  end.

(** [s.endswith(suf)]. *)
Definition endswith (s suf : str) : bool :=
  startswith (rev s) (rev suf).

(** [sub in s]. *)
Fixpoint contains (s sub : str) : bool :=
  startswith s sub ||
  match s with
  | [] => false
  | _ :: s' => contains s' sub
  end.

(** [x or ""] where [x] is a string or [None]. *)
Definition or_empty (x : option str) : str :=
  match x with
  | Some s => if truthy s then s else []
  | None => []
  end.

(** Decimal digits of a natural number, [str(n)]. *)
Fixpoint digits_fuel (fuel : nat) (n : N) (acc : str) : str :=
  match fuel with
  | O => acc
  | S fuel' =>
      let acc' := (48 + n mod 10)%N :: acc in
      if (n <? 10)%N then acc' else digits_fuel fuel' (n / 10)%N acc'
  end.

Definition str_of_N (n : N) : str :=
  digits_fuel (S (N.to_nat (N.log2 n))) n [].

Definition str_of_nat (n : nat) : str := str_of_N (N.of_nat n).

End Py.

Import Py.

(** ** Exceptions *)

(** An exception is known by its message, [str(e)]. *)
Definition exn := str.

Inductive result (A : Type) : Type :=
| Ok (a : A)
| Raise (e : exn).

Arguments Ok {A} a.
Arguments Raise {A} e.

Definition rbind {A B} (r : result A) (k : A -> result B) : result B :=
  match r with
  | Ok a => k a
  | Raise e => Raise e
  end.

Declare Scope result_scope.
Delimit Scope result_scope with result.
Notation "x <-? r ; k" := (rbind r (fun x => k))
  (at level 100, r at next level, right associativity) : result_scope.

(** A list comprehension whose element expression may raise: the first
    exception ends it. *)
Fixpoint comprehension {A B} (f : A -> result B) (l : list A) : result (list B) :=
  match l with
  | [] => Ok []
  | a :: l' =>
      (b <-? f a ; bs <-? comprehension f l' ; Ok (b :: bs))%result
  end.

(** ** Uploaded files *)

(** A page of an opened PDF: [page.extract_text()] raises, or returns a
    string or [None]. *)
Record Page := { page_extract_text : result (option str) }.

(** An uploaded file, as the script sees it: its name, and what each parser
    answers on its content. [pdfplumber_open] is [pdfplumber.open(file)]
    (an exception, or the pages of the document); [docx_Document] is
    [docx.Document(file)] (an exception, or the [text] of each
    paragraph). *)
Record UploadedFile := {
  name : str;
  pdfplumber_open : result (list Page);
  docx_Document : result (list str)
}.

(** ** [extract_text] *)

(** The body of the [try] block of [extract_text]. *)
Definition extract_text_body (file : UploadedFile) : result str :=
  if endswith (name file) (lit ".pdf") then
    (pages <-? pdfplumber_open file ;
     texts <-? comprehension
                 (fun page => x <-? page_extract_text page ; Ok (or_empty x))
                 pages ;
     let text := join (lit " ") texts in
     Ok (strip text))%result
  else if endswith (name file) (lit ".docx") then
    (paragraphs <-? docx_Document file ;
     Ok (strip (join (lit " ") paragraphs)))%result
  else
    Ok [].

(** The message of the [st.error] call in the handler. *)
Definition error_processing (file : UploadedFile) (e : exn) : str :=
  lit "Error processing " ++ name file ++ lit ": " ++ e.

(** ** Floats *)

Module Float.

Definition float := spec_float.

Definition prec : Z := 53.
Definition emax : Z := 1024.

Definition mul : float -> float -> float := SFmul prec emax.
Definition div : float -> float -> float := SFdiv prec emax.
Definition of_Z (z : Z) : float := binary_normalize prec emax z 0 false.

(** [a < b] and [a > b]. *)
Definition ltb : float -> float -> bool := SFltb.
Definition gtb (a b : float) : bool := SFltb b a.

Definition is_nan (x : float) : bool :=
  match x with
  | S754_nan => true
  | _ => false
  end.

(** The literals [100], [0.5] and [0.3] of the source. *)
Definition f100 : float := Eval cbv in of_Z 100.
Definition f0_5 : float := Eval cbv in div (of_Z 1) (of_Z 2).
Definition f0_3 : float := Eval cbv in div (of_Z 3) (of_Z 10).

(** [num / den] rounded to the nearest integer, ties to even ([den > 0]). *)
Definition round_half_even (num den : Z) : Z :=
  let q := (num / den)%Z in
  match (2 * (num mod den) ?= den)%Z with
  | Lt => q
  | Gt => (q + 1)%Z
  | Eq => if Z.even q then q else (q + 1)%Z
  end.

(** The magnitude [m * 2^e], times 100, rounded to an integer: the number
    of hundredths that [format(x, '.2f')] prints. *)
Definition hundredths (m : positive) (e : Z) : Z :=
  match e with
  | Zneg p => round_half_even (Zpos m * 100) (2 ^ Zpos p)
  | _ => (Zpos m * 2 ^ e * 100)%Z
  end.

Definition two_digits (n : N) : str :=
  [(48 + n / 10)%N; (48 + n mod 10)%N].

Definition sign_str (s : bool) : str := if s then lit "-" else [].

(** [format(x, '.2f')]: the decimal expansion of [x] with two digits after
    the point, correctly rounded. *)
Definition format_2f (x : float) : str :=
  match x with
  | S754_nan => lit "nan"
  | S754_infinity s => sign_str s ++ lit "inf"
  | S754_zero s => sign_str s ++ lit "0.00"
  | S754_finite s m e =>
      let h := Z.to_N (hundredths m e) in
      sign_str s ++ str_of_N (h / 100) ++ lit "." ++ two_digits (h mod 100)
  end.

End Float.

Import Float.

(** ** scikit-learn *)

(** What the script uses of scikit-learn. [fit stop_words docs] learns the
    vocabulary and the IDF weights of a [TfidfVectorizer] from [docs] (it
    raises, for instance, on an empty vocabulary); [transform] maps one
    document to its row of the TF-IDF matrix; [cosine] is one entry of
    [cosine_similarity]. *)
Class Sklearn := {
  Fitted : Type;
  Vector : Type;
  fit : str -> list str -> result Fitted;
  transform : Fitted -> str -> Vector;
  cosine : Vector -> Vector -> float
}.

(** ** Sorting *)

Section Sorted.
Context {A K : Type}.
Variable key : A -> K.
Variable lt : K -> K -> bool.

Fixpoint insert (x : A) (l : list A) : list A :=
  match l with
  | [] => [x]
  | y :: l' => if lt (key y) (key x) then y :: insert x l' else x :: y :: l'
  end.

(** A stable ascending sort that compares keys with [<] only. *)
Definition sort_stable (l : list A) : list A := fold_right insert [] l.

(** [sorted(l, key=key, reverse=True)]: the list is reversed, sorted
    stably in ascending order, and reversed again. *)
Definition sorted_reverse (l : list A) : list A :=
  rev (sort_stable (rev l)).
End Sorted.

(** [enumerate(l, start)]. *)
Fixpoint enumerate {A} (start : nat) (l : list A) : list (nat * A) :=
  match l with
  | [] => []
  | x :: l' => (start, x) :: enumerate (S start) l'
  end.

(** ** The script *)

(** One entry of [results]. *)
Record Result := {
  Document : str;
  Match_Score : str;
  Raw_Score : float
}.

(** A run of the script ends normally or is halted by [st.stop()]. *)
Inductive outcome (A : Type) :=
| Done (a : A)
| Stop.

Arguments Done {A} a.
Arguments Stop {A}.

Section Script.
Context {SK : Sklearn}.

(** The object built by [TfidfVectorizer(stop_words='english')]; fitting
    stores the learnt state in it. [fitted] is [None] as long as the
    vectorizer is not fitted: when it is built, and after a call to
    [fit_transform] that raised. *)
Record TfidfVectorizer := {
  stop_words : str;
  fitted : option Fitted
}.

(** What the script does that is visible from outside, in order. *)
Inductive event :=
| st_progress (num den : nat) (text : str)
| st_error (msg : str)
| st_warning (msg : str)
| st_success (msg : str)
| st_markdown (idx : nat) (document match_score : str) (raw_score : float)
              (score_color : str)
| st_download_button (rows : list (nat * str * str))
| call_fit_transform (stop_words : str) (raw_documents : list str).

(** The state of the process: the resource cached by
    [st.cache_resource], which outlives a run of the script, and the
    trace of events. *)
Record world := {
  cache_resource : option TfidfVectorizer;
  trace : list event
}.

Definition App (A : Type) := world -> outcome A * world.

Definition ret {A} (a : A) : App A := fun w => (Done a, w).

Definition bind {A B} (m : App A) (k : A -> App B) : App B :=
  fun w =>
    match m w with
    | (Done a, w') => k a w'
    | (Stop, w') => (Stop, w')
    end.

Definition emit (e : event) : App unit :=
  fun w => (Done tt, {| cache_resource := cache_resource w;
                        trace := trace w ++ [e] |}).

Definition st_stop {A} : App A := fun w => (Stop, w).

Declare Scope app_scope.
Delimit Scope app_scope with app.
Notation "x <- m ;; k" := (bind m (fun x => k))
  (at level 100, m at next level, right associativity) : app_scope.
Notation "' pat <- m ;; k" := (bind m (fun pat => k))
  (at level 100, pat pattern, m at next level, right associativity)
  : app_scope.
Notation "m ;; k" := (bind m (fun _ => k))
  (at level 100, right associativity) : app_scope.
Local Open Scope app_scope.

(** [get_vectorizer], under [st.cache_resource]: the first call builds the
    vectorizer and caches it; later calls return the cached object. *)
Definition get_vectorizer : App TfidfVectorizer :=
  fun w =>
    match cache_resource w with
    | Some vectorizer => (Done vectorizer, w)
    | None =>
        let vectorizer := {| stop_words := lit "english"; fitted := None |} in
        (Done vectorizer,
         {| cache_resource := Some vectorizer; trace := trace w |})
    end.

(** [extract_text]: the handler reports the exception and returns the
    empty string. *)
Definition extract_text (file : UploadedFile) : App str :=
  match extract_text_body file with
  | Ok text => ret text
  | Raise e => emit (st_error (error_processing file e)) ;; ret []
  end.

(** [vectorizer.fit_transform(raw_documents)]. The vectorizer is the cached
    object itself, so that what fitting stores in it is stored in the
    cache. The call first replaces the TF-IDF weights of the vectorizer by
    new, unfitted ones, and then learns from the documents: when it
    raises, the state of an earlier fit is lost. The returned matrix is the
    list of its rows. *)
Definition fit_transform (vectorizer : TfidfVectorizer)
    (raw_documents : list str) : App (result (list Vector)) :=
  emit (call_fit_transform (stop_words vectorizer) raw_documents) ;;
  fun w =>
    match fit (stop_words vectorizer) raw_documents with
    | Ok f =>
        (Done (Ok (map (transform f) raw_documents)),
         {| cache_resource :=
              Some {| stop_words := stop_words vectorizer; fitted := Some f |};
            trace := trace w |})
    | Raise e =>
        (Done (Raise e),
         {| cache_resource :=
              Some {| stop_words := stop_words vectorizer; fitted := None |};
            trace := trace w |})
    end.

(** [cosine_similarity(X, Y)]: the matrix of the similarities of each row
    of [X] with each row of [Y]; it raises when [X] or [Y] has no row (the
    message is abridged). *)
Definition cosine_similarity (X Y : list Vector) : result (list (list float)) :=
  match X, Y with
  | [], _ | _, [] => Raise (lit "Found array with 0 sample(s)")
  | _, _ => Ok (map (fun x => map (cosine x) Y) X)
  end.

(** The loop over [enumerate(resumes)]. *)
Fixpoint extraction_loop (len_resumes i : nat) (rest : list UploadedFile)
    (valid_resumes : list UploadedFile) (resume_texts : list str)
    : App (list UploadedFile * list str) :=
  match rest with
  | [] => ret (valid_resumes, resume_texts)
  | resume :: rest' =>
      emit (st_progress (i + 1) len_resumes
              (lit "Processing " ++ name resume ++ lit "...")) ;;
      text <- extract_text resume ;;
      if truthy text then
        extraction_loop len_resumes (S i) rest'
          (valid_resumes ++ [resume]) (resume_texts ++ [text])
      else
        extraction_loop len_resumes (S i) rest' valid_resumes resume_texts
  end.

(** The body of the [try] block around vectorisation. *)
Definition similarity (vectorizer : TfidfVectorizer) (job_description : str)
    (resume_texts : list str) : App (result (list float)) :=
  let job_desc_texts := [job_description] ++ resume_texts in
  r <- fit_transform vectorizer job_desc_texts ;;
  ret (tfidf_matrix <-? r ;
       sims <-? cosine_similarity (firstn 1 tfidf_matrix) (skipn 1 tfidf_matrix) ;
       Ok (concat sims))%result.

(** The f-string of the [Match Score] entry. *)
Definition match_score (score : float) : str :=
  format_2f (mul score f100) ++ lit "%".

Definition make_results (names : list str) (similarity_scores : list float)
    : list Result :=
  map (fun '(name, score) =>
         {| Document := name;
            Match_Score := match_score score;
            Raw_Score := score |})
      (combine names similarity_scores).

Definition sorted_by_raw_score (results : list Result) : list Result :=
  sorted_reverse Raw_Score ltb results.

Definition score_color (raw_score : float) : str :=
  if gtb raw_score f0_5 then lit "green"
  else if gtb raw_score f0_3 then lit "orange"
  else lit "red".

(** The loop over [enumerate(sorted_results, 1)]. *)
Fixpoint display (cards : list (nat * Result)) : App unit :=
  match cards with
  | [] => ret tt
  | (idx, result) :: cards' =>
      emit (st_markdown idx (Document result) (Match_Score result)
              (Raw_Score result) (score_color (Raw_Score result))) ;;
      display cards'
  end.

(** The rows handed to [create_downloadable_data]. *)
Definition download_rows (sorted_results : list Result) : list (nat * str * str) :=
  map (fun '(i, res) => (i + 1, Document res, Match_Score res))
      (enumerate 0 sorted_results).

Definition no_valid_text : str :=
  lit "No valid text extracted from uploaded resumes!".

Definition error_in_processing (e : exn) : str :=
  lit "Error in document processing: " ++ e.

Definition analysis_complete (n : nat) : str :=
  [9989%N] ++ lit " Analysis complete! Processed " ++ str_of_nat n
  ++ lit " resumes".

Definition please_upload : str :=
  [9888%N; 65039%N]
  ++ lit " Please upload resumes and enter a job description to start analysis!".

(** The block run when the button is pressed. *)
Definition matching (resumes : list UploadedFile) (job_description : str)
    : App unit :=
  vectorizer <- get_vectorizer ;;
  emit (st_progress 0 1 []) ;;
  '(valid_resumes, resume_texts) <-
     extraction_loop (length resumes) 0 resumes [] [] ;;
  (if truthy_list resume_texts then ret tt
   else emit (st_error no_valid_text) ;; st_stop) ;;
  r <- similarity vectorizer job_description resume_texts ;;
  similarity_scores <-
    match r with
    | Ok scores => ret scores
    | Raise e => emit (st_error (error_in_processing e)) ;; st_stop
    end ;;
  let results := make_results (map name valid_resumes) similarity_scores in
  let sorted_results := sorted_by_raw_score results in
  emit (st_success (analysis_complete (length sorted_results))) ;;
  display (enumerate 1 sorted_results) ;;
  emit (st_download_button (download_rows sorted_results)).

(** The script, from the uploaded files, the text of the job description
    and whether the button is pressed. *)
Definition script (resumes : list UploadedFile) (job_description : str)
    (button : bool) : App unit :=
  if truthy_list resumes && truthy job_description && button then
    matching resumes job_description
  else if negb (truthy_list resumes) || negb (truthy job_description) then
    emit (st_warning please_upload)
  else
    ret tt.

(** ** What a run does, in closed form *)

(** The string [extract_text] returns on a file, and the events it emits. *)
Definition text_of (file : UploadedFile) : str :=
  match extract_text_body file with
  | Ok text => text
  | Raise _ => []
  end.

Definition errors_of (file : UploadedFile) : list event :=
  match extract_text_body file with
  | Ok _ => []
  | Raise e => [st_error (error_processing file e)]
  end.

(** The files kept by the loop, and their texts. *)
Definition survivors (resumes : list UploadedFile) : list UploadedFile :=
  filter (fun file => truthy (text_of file)) resumes.

Definition surviving_texts (resumes : list UploadedFile) : list str :=
  filter truthy (map text_of resumes).

(** The files dropped by the loop. *)
Definition excluded (resumes : list UploadedFile) : list UploadedFile :=
  filter (fun file => negb (truthy (text_of file))) resumes.

Definition processing (file : UploadedFile) : str :=
  lit "Processing " ++ name file ++ lit "...".

Fixpoint loop_events (len_resumes i : nat) (rest : list UploadedFile)
    : list event :=
  match rest with
  | [] => []
  | resume :: rest' =>
      st_progress (i + 1) len_resumes (processing resume)
      :: errors_of resume ++ loop_events len_resumes (S i) rest'
  end.

Definition add_events (w : world) (evs : list event) : world :=
  {| cache_resource := cache_resource w; trace := trace w ++ evs |}.

(** The events a run added to the trace. *)
Definition emitted (w w' : world) : list event :=
  skipn (length (trace w)) (trace w').

(** The vectorizer a run works with: the cached one, or a new one. *)
Definition english_vectorizer : TfidfVectorizer :=
  {| stop_words := lit "english"; fitted := None |}.

Definition cached (w : world) : TfidfVectorizer :=
  match cache_resource w with
  | Some vectorizer => vectorizer
  | None => english_vectorizer
  end.

(** Every vectorizer in the cache was built by [get_vectorizer]. *)
Definition wf (w : world) : Prop :=
  stop_words (cached w) = lit "english".

Definition fresh : world := {| cache_resource := None; trace := [] |}.

Definition card_event (card : nat * Result) : event :=
  let '(idx, result) := card in
  st_markdown idx (Document result) (Match_Score result) (Raw_Score result)
    (score_color (Raw_Score result)).

(** The scores of the texts against the job description, under a fitted
    vectorizer: row 0 of the matrix against each of the other rows. *)
Definition scores_under (f : Fitted) (job_description : str)
    (resume_texts : list str) : list float :=
  map (fun text => cosine (transform f job_description) (transform f text))
      resume_texts.

Definition sorted_results_of (f : Fitted) (job_description : str)
    (resumes : list UploadedFile) : list Result :=
  sorted_by_raw_score
    (make_results (map name (survivors resumes))
       (scores_under f job_description (surviving_texts resumes))).

(** The events of the results display. *)
Definition display_events (sorted_results : list Result) : list event :=
  st_success (analysis_complete (length sorted_results))
  :: map card_event (enumerate 1 sorted_results)
  ++ [st_download_button (download_rows sorted_results)].

(** The state after [get_vectorizer], after a successful fit, and after a
    fit that raised. *)
Definition got_vectorizer (w : world) : world :=
  {| cache_resource := Some (cached w); trace := trace w |}.

Definition fitted_world (w : world) (f : Fitted) (evs : list event) : world :=
  {| cache_resource :=
       Some {| stop_words := stop_words (cached w); fitted := Some f |};
     trace := trace w ++ evs |}.

Definition unfitted_world (w : world) (evs : list event) : world :=
  {| cache_resource :=
       Some {| stop_words := stop_words (cached w); fitted := None |};
     trace := trace w ++ evs |}.

(** The events up to the end of the extraction loop. *)
Definition extraction_events (resumes : list UploadedFile) : list event :=
  st_progress 0 1 [] :: loop_events (length resumes) 0 resumes.

Lemma add_events_nil w : add_events w [] = w.
Proof. destruct w; unfold add_events; simpl. now rewrite app_nil_r. Qed.

Lemma add_events_app w a b :
  add_events (add_events w a) b = add_events w (a ++ b).
Proof. unfold add_events; simpl. now rewrite app_assoc. Qed.

Lemma emitted_add_events w evs : emitted w (add_events w evs) = evs.
Proof.
  unfold emitted, add_events; simpl.
  rewrite skipn_app, skipn_all, Nat.sub_diag. reflexivity.
Qed.

Lemma emit_run e w : emit e w = (Done tt, add_events w [e]).
Proof. reflexivity. Qed.

Lemma bind_run {A B} {m : App A} (k : A -> App B) {w a w'} :
  m w = (Done a, w') -> bind m k w = k a w'.
Proof. unfold bind; intros ->; reflexivity. Qed.

Lemma extract_text_run file w :
  extract_text file w = (Done (text_of file), add_events w (errors_of file)).
Proof.
  unfold extract_text, text_of, errors_of.
  destruct (extract_text_body file); simpl.
  - unfold ret. now rewrite add_events_nil.
  - reflexivity.
Qed.

Lemma extraction_loop_run rest : forall len_resumes i valid_resumes resume_texts w,
  extraction_loop len_resumes i rest valid_resumes resume_texts w =
  (Done (valid_resumes ++ survivors rest,
         resume_texts ++ surviving_texts rest),
   add_events w (loop_events len_resumes i rest)).
Proof.
  induction rest as [|resume rest IH]; intros n i vr rt w; simpl.
  - unfold ret, survivors, surviving_texts; simpl.
    now rewrite !app_nil_r, add_events_nil.
  - rewrite (bind_run _ (emit_run _ w)).
    rewrite (bind_run _ (extract_text_run resume _)).
    unfold survivors, surviving_texts in *; simpl.
    destruct (truthy (text_of resume)); rewrite IH, !add_events_app; simpl;
      now rewrite <- ?app_assoc.
Qed.

Lemma display_run cards : forall w,
  display cards w = (Done tt, add_events w (map card_event cards)).
Proof.
  induction cards as [|[idx result] cards IH]; intros w; simpl.
  - unfold ret. now rewrite add_events_nil.
  - rewrite (bind_run _ (emit_run _ w)), IH, add_events_app. reflexivity.
Qed.

Lemma map_text_of_survivors resumes :
  map text_of (survivors resumes) = surviving_texts resumes.
Proof.
  unfold survivors, surviving_texts.
  induction resumes as [|file resumes IH]; simpl; [reflexivity|].
  destruct (truthy (text_of file)); simpl; now rewrite IH.
Qed.

Lemma length_survivors resumes :
  length (survivors resumes) = length (surviving_texts resumes).
Proof. now rewrite <- map_text_of_survivors, length_map. Qed.

Lemma length_survivors_excluded resumes :
  length (survivors resumes) + length (excluded resumes) = length resumes.
Proof.
  unfold survivors, excluded.
  induction resumes as [|file resumes IH]; simpl; [reflexivity|].
  destruct (truthy (text_of file)); simpl; lia.
Qed.

Lemma get_vectorizer_run w :
  get_vectorizer w = (Done (cached w), got_vectorizer w).
Proof.
  unfold get_vectorizer, cached, got_vectorizer.
  destruct w as [[v|] tr]; reflexivity.
Qed.

Lemma fit_transform_run vectorizer raw_documents w :
  fit_transform vectorizer raw_documents w =
  let call := call_fit_transform (stop_words vectorizer) raw_documents in
  match fit (stop_words vectorizer) raw_documents with
  | Ok f =>
      (Done (Ok (map (transform f) raw_documents)),
       {| cache_resource :=
            Some {| stop_words := stop_words vectorizer; fitted := Some f |};
          trace := trace w ++ [call] |})
  | Raise e =>
      (Done (Raise e),
       {| cache_resource :=
            Some {| stop_words := stop_words vectorizer; fitted := None |};
          trace := trace w ++ [call] |})
  end.
Proof.
  unfold fit_transform.
  rewrite (bind_run _ (emit_run _ w)).
  destruct (fit (stop_words vectorizer) raw_documents); reflexivity.
Qed.

Lemma similarity_run vectorizer job_description text texts w :
  similarity vectorizer job_description (text :: texts) w =
  let corpus := job_description :: text :: texts in
  let call := call_fit_transform (stop_words vectorizer) corpus in
  match fit (stop_words vectorizer) corpus with
  | Ok f =>
      (Done (Ok (scores_under f job_description (text :: texts))),
       {| cache_resource :=
            Some {| stop_words := stop_words vectorizer; fitted := Some f |};
          trace := trace w ++ [call] |})
  | Raise e =>
      (Done (Raise e),
       {| cache_resource :=
            Some {| stop_words := stop_words vectorizer; fitted := None |};
          trace := trace w ++ [call] |})
  end.
Proof.
  unfold similarity, bind. rewrite fit_transform_run. simpl.
  destruct (fit (stop_words vectorizer) (job_description :: text :: texts));
    simpl; [|reflexivity].
  unfold ret, scores_under. simpl. now rewrite app_nil_r, map_map.
Qed.

(** The whole block, by cases on what survives extraction and on whether
    fitting raises. *)
Lemma matching_run resumes job_description w :
  matching resumes job_description w =
  let corpus := job_description :: surviving_texts resumes in
  let call := call_fit_transform (stop_words (cached w)) corpus in
  match surviving_texts resumes with
  | [] =>
      (Stop, add_events (got_vectorizer w)
               (extraction_events resumes ++ [st_error no_valid_text]))
  | _ :: _ =>
      match fit (stop_words (cached w)) corpus with
      | Raise e =>
          (Stop, unfitted_world w
                   (extraction_events resumes
                    ++ [call; st_error (error_in_processing e)]))
      | Ok f =>
          (Done tt,
           fitted_world w f
             (extraction_events resumes
              ++ call :: display_events
                           (sorted_results_of f job_description resumes)))
      end
  end.
Proof.
  unfold matching.
  rewrite (bind_run _ (get_vectorizer_run w)).
  rewrite (bind_run _ (emit_run _ _)).
  rewrite (bind_run _ (extraction_loop_run _ _ _ _ _ _)).
  rewrite !add_events_app. cbn [app].
  change (st_progress 0 1 [] :: loop_events (length resumes) 0 resumes)
    with (extraction_events resumes).
  destruct (surviving_texts resumes) as [|text texts] eqn:Htexts.
  - unfold bind at 1. cbn [truthy_list].
    rewrite (bind_run _ (emit_run _ _)). unfold st_stop.
    now rewrite add_events_app.
  - unfold bind at 1. cbn [truthy_list ret].
    unfold bind at 1. rewrite similarity_run. cbn zeta.
    destruct (fit (stop_words (cached w)) (job_description :: text :: texts))
      as [f|e].
    + unfold bind at 1. cbn [ret].
      unfold sorted_results_of. rewrite Htexts.
      set (sorted_results := sorted_by_raw_score _).
      rewrite (bind_run _ (emit_run _ _)).
      rewrite (bind_run _ (display_run _ _)).
      rewrite emit_run, !add_events_app.
      unfold fitted_world, add_events, got_vectorizer, display_events; simpl.
      rewrite <- !app_assoc. reflexivity.
    + unfold bind at 1.
      rewrite (bind_run _ (emit_run _ _)). unfold st_stop.
      unfold unfitted_world, add_events, got_vectorizer; simpl.
      rewrite <- !app_assoc. reflexivity.
Qed.

End Script.

(** ** The order of floats *)

Section FloatOrder.

Ltac split_compare :=
  repeat match goal with
  | H : context [Z.compare ?x ?y] |- _ => destruct (Z.compare_spec x y)
  | |- context [Z.compare ?x ?y] => destruct (Z.compare_spec x y)
  | H : context [Pos.compare ?x ?y] |- _ => destruct (Pos.compare_spec x y)
  | |- context [Pos.compare ?x ?y] => destruct (Pos.compare_spec x y)
  end.

Ltac float_cases :=
  unfold ltb, gtb, SFltb, SFleb, SFeqb, SFcompare, is_nan;
  change (Pos.compare_cont Eq) with Pos.compare.

Lemma ltb_asym (a b : float) : ltb a b = true -> ltb b a = false.
Proof.
  float_cases.
  destruct a as [[]|[]| |[] m1 e1], b as [[]|[]| |[] m2 e2];
    try reflexivity; try discriminate;
    split_compare; simpl; intros; try reflexivity; try discriminate; lia.
Qed.

Lemma ltb_cotrans (a b c : float) :
  is_nan c = false -> ltb a b = true -> ltb a c = true \/ ltb c b = true.
Proof.
  float_cases.
  destruct a as [[]|[]| |[] m1 e1], b as [[]|[]| |[] m2 e2];
    try discriminate;
    destruct c as [[]|[]| |[] m3 e3]; try discriminate; intros _;
    try (intros _; (left; reflexivity) || (right; reflexivity));
    split_compare; simpl; intros;
    try discriminate; try (left; reflexivity); try (right; reflexivity);
    exfalso; lia.
Qed.

Lemma ltb_false_leb (a b : float) :
  is_nan a = false -> is_nan b = false -> ltb a b = false -> SFleb b a = true.
Proof.
  float_cases.
  destruct a as [[]|[]| |[] m1 e1], b as [[]|[]| |[] m2 e2];
    try reflexivity; try discriminate; intros _ _;
    split_compare; simpl; intros; try reflexivity; try discriminate; lia.
Qed.

End FloatOrder.

(** ** The sort is a stable sort *)

Section SortedFacts.
Context {A K : Type}.
Variable key : A -> K.
Variable lt : K -> K -> bool.

(** The keys on which [lt] behaves as a strict weak order. *)
Variable good : K -> Prop.
Hypothesis lt_asym :
  forall a b, good a -> good b -> lt a b = true -> lt b a = false.
Hypothesis lt_cotrans :
  forall a b c, good a -> good b -> good c ->
    lt a b = true -> lt a c = true \/ lt c b = true.

(** [x] may stand before [y] in ascending order. *)
Definition ascending (x y : A) : Prop := lt (key y) (key x) = false.

(** [x] may stand before [y] in descending order. *)
Definition descending (x y : A) : Prop := lt (key x) (key y) = false.

(** Neither key is below the other. *)
Definition tied (k k' : K) : bool := negb (lt k k') && negb (lt k' k).

Definition good_keys (l : list A) : Prop := Forall (fun x => good (key x)) l.

Lemma insert_perm x l : Permutation (insert key lt x l) (x :: l).
Proof.
  induction l as [|y l IH]; simpl; [reflexivity|].
  destruct (lt (key y) (key x)); [|reflexivity].
  rewrite IH. apply perm_swap.
Qed.

Lemma sort_stable_perm l : Permutation (sort_stable key lt l) l.
Proof.
  induction l as [|x l IH]; simpl; [reflexivity|].
  rewrite insert_perm. now constructor.
Qed.

Lemma sorted_reverse_perm l : Permutation (sorted_reverse key lt l) l.
Proof.
  unfold sorted_reverse.
  rewrite <- Permutation_rev, sort_stable_perm, <- Permutation_rev.
  reflexivity.
Qed.

Lemma good_keys_perm {l l'} : Permutation l l' -> good_keys l -> good_keys l'.
Proof. intros HP HG. exact (Permutation_Forall HP HG). Qed.

Lemma insert_sorted x l :
  good (key x) -> good_keys l ->
  StronglySorted ascending l -> StronglySorted ascending (insert key lt x l).
Proof.
  intros Hx Hl Hs. induction Hs as [|y l Hs IH Hy]; simpl.
  - repeat constructor.
  - inversion Hl as [|? ? Gy Gl]; subst.
    destruct (lt (key y) (key x)) eqn:E.
    + constructor; [now apply IH|].
      apply (Permutation_Forall (Permutation_sym (insert_perm x l))).
      constructor; [|exact Hy].
      unfold ascending. now apply lt_asym.
    + constructor; [now constructor|].
      constructor; [exact E|].
      rewrite Forall_forall in *. intros z Hz.
      unfold ascending in *.
      destruct (lt (key z) (key x)) eqn:Ez; [|reflexivity].
      destruct (lt_cotrans _ _ _ (Gl z Hz) Hx Gy Ez) as [H|H].
      * rewrite (Hy z Hz) in H. discriminate.
      * rewrite E in H. discriminate.
Qed.

Lemma sort_stable_sorted l :
  good_keys l -> StronglySorted ascending (sort_stable key lt l).
Proof.
  induction 1 as [|x l Hx Hl IH]; simpl; [constructor|].
  apply insert_sorted; [exact Hx| |exact IH].
  apply (good_keys_perm (Permutation_sym (sort_stable_perm l))). exact Hl.
Qed.

Lemma sorted_snoc (R : A -> A -> Prop) l x :
  StronglySorted R l -> Forall (fun y => R y x) l ->
  StronglySorted R (l ++ [x]).
Proof.
  induction 1 as [|y l Hs IH Hy]; simpl; intros Hx.
  - repeat constructor.
  - inversion Hx; subst. constructor; [now apply IH|].
    apply Forall_app. split; [exact Hy|]. now repeat constructor.
Qed.

Lemma sorted_rev (R : A -> A -> Prop) l :
  StronglySorted R l -> StronglySorted (fun x y => R y x) (rev l).
Proof.
  induction 1 as [|y l Hs IH Hy]; simpl; [constructor|].
  apply sorted_snoc; [exact IH|].
  apply Forall_rev. exact Hy.
Qed.

Lemma sorted_reverse_sorted l :
  good_keys l -> StronglySorted descending (sorted_reverse key lt l).
Proof.
  intros Hl. unfold sorted_reverse.
  apply (sorted_rev ascending), sort_stable_sorted.
  apply (good_keys_perm (Permutation_rev l)). exact Hl.
Qed.

(** Inserting does not reorder the elements tied with a given key. *)
Lemma filter_insert k x l :
  good k -> good (key x) -> good_keys l ->
  filter (fun y => tied k (key y)) (insert key lt x l) =
  filter (fun y => tied k (key y)) (x :: l).
Proof.
  intros Hk Hx Hl. induction Hl as [|y l Hy Hl IH]; [reflexivity|].
  simpl insert. destruct (lt (key y) (key x)) eqn:E; [|reflexivity].
  cbn [filter] in *. rewrite IH.
  destruct (tied k (key x)) eqn:Tx, (tied k (key y)) eqn:Ty; try reflexivity.
  exfalso. unfold tied in Tx, Ty.
  apply andb_prop in Tx, Ty.
  destruct Tx as [Tx1 Tx2], Ty as [Ty1 Ty2].
  apply negb_true_iff in Tx1, Tx2, Ty1, Ty2.
  destruct (lt_cotrans _ _ _ Hy Hx Hk E) as [H|H]; congruence.
Qed.

Lemma filter_sort_stable k l :
  good k -> good_keys l ->
  filter (fun y => tied k (key y)) (sort_stable key lt l) =
  filter (fun y => tied k (key y)) l.
Proof.
  intros Hk Hl. induction Hl as [|x l Hx Hl IH]; [reflexivity|].
  simpl sort_stable. rewrite filter_insert; trivial.
  - simpl. now rewrite IH.
  - apply (good_keys_perm (Permutation_sym (sort_stable_perm l))). exact Hl.
Qed.

Lemma filter_rev (p : A -> bool) l : filter p (rev l) = rev (filter p l).
Proof.
  induction l as [|x l IH]; simpl; [reflexivity|].
  rewrite filter_app, IH. simpl. destruct (p x); simpl;
    [reflexivity | now rewrite app_nil_r].
Qed.

(** The sort is stable: the elements tied with a key keep their order. *)
Lemma filter_sorted_reverse k l :
  good k -> good_keys l ->
  filter (fun y => tied k (key y)) (sorted_reverse key lt l) =
  filter (fun y => tied k (key y)) l.
Proof.
  intros Hk Hl. unfold sorted_reverse.
  rewrite filter_rev, filter_sort_stable, filter_rev, rev_involutive; trivial.
  apply (good_keys_perm (Permutation_rev l)). exact Hl.
Qed.

End SortedFacts.

(** The result of the sort is the only list in descending order in which
    tied elements keep their input order: any stable sort, such as the one
    of CPython, computes it. *)
Section StableUnique.
Context {A K : Type}.
Variable key : A -> K.
Variable lt : K -> K -> bool.
Variable good : K -> Prop.
Hypothesis lt_asym :
  forall a b, good a -> good b -> lt a b = true -> lt b a = false.
Hypothesis lt_cotrans :
  forall a b c, good a -> good b -> good c ->
    lt a b = true -> lt a c = true \/ lt c b = true.

Lemma tied_refl k : good k -> tied lt k k = true.
Proof.
  intros Hk. unfold tied.
  destruct (lt k k) eqn:E; [|reflexivity].
  rewrite (lt_asym _ _ Hk Hk E) in E. discriminate.
Qed.

Lemma filter_tied_head k x l l' :
  filter (fun y => tied lt k (key y)) (x :: l)
  = filter (fun y => tied lt k (key y)) (x :: l') ->
  filter (fun y => tied lt k (key y)) l
  = filter (fun y => tied lt k (key y)) l'.
Proof.
  simpl. destruct (tied lt k (key x)); [now intros [= H]|trivial].
Qed.

Lemma in_filter_tied x y l l' :
  good (key y) ->
  filter (fun z => tied lt (key y) (key z)) (x :: l)
  = filter (fun z => tied lt (key y) (key z)) (y :: l') ->
  tied lt (key y) (key x) = false -> In y l.
Proof.
  intros Hy E T. simpl in E. rewrite T, (tied_refl _ Hy) in E.
  assert (H : In y (filter (fun z => tied lt (key y) (key z)) l))
    by (rewrite E; now left).
  apply filter_In in H. tauto.
Qed.

Lemma stable_descending_unique l1 : forall l2,
  good_keys key good l1 -> good_keys key good l2 ->
  StronglySorted (descending key lt) l1 ->
  StronglySorted (descending key lt) l2 ->
  (forall k, good k ->
     filter (fun y => tied lt k (key y)) l1
     = filter (fun y => tied lt k (key y)) l2) ->
  l1 = l2.
Proof.
  induction l1 as [|x l1 IH]; intros [|y l2] G1 G2 S1 S2 Hf; trivial.
  - inversion G2 as [|? ? Gy _]; subst.
    specialize (Hf (key y) Gy). simpl in Hf.
    rewrite (tied_refl _ Gy) in Hf. discriminate.
  - inversion G1 as [|? ? Gx _]; subst.
    specialize (Hf (key x) Gx). simpl in Hf.
    rewrite (tied_refl _ Gx) in Hf. discriminate.
  - inversion G1 as [|? ? Gx G1']; inversion G2 as [|? ? Gy G2']; subst.
    inversion S1 as [|? ? S1' D1]; inversion S2 as [|? ? S2' D2]; subst.
    assert (E : x = y).
    { destruct (tied lt (key x) (key y)) eqn:T.
      - pose proof (Hf (key x) Gx) as H. simpl in H.
        rewrite T, (tied_refl _ Gx) in H. now injection H.
      - exfalso.
        assert (T' : tied lt (key y) (key x) = false)
          by (unfold tied in *; now rewrite andb_comm).
        assert (Hy : In y l1)
          by (apply (in_filter_tied x y l1 l2 Gy (Hf (key y) Gy) T')).
        assert (Hx : In x l2)
          by (apply (in_filter_tied y x l2 l1 Gx
                       (eq_sym (Hf (key x) Gx)) T)).
        rewrite Forall_forall in D1, D2.
        specialize (D1 y Hy). specialize (D2 x Hx).
        unfold descending in D1, D2. unfold tied in T.
        now rewrite D1, D2 in T. }
    subst y. f_equal. apply IH; trivial.
    intros k Hk. apply (filter_tied_head k x). now apply Hf.
Qed.

Lemma sorted_reverse_unique l l' :
  good_keys key good l -> good_keys key good l' ->
  StronglySorted (descending key lt) l' ->
  (forall k, good k ->
     filter (fun y => tied lt k (key y)) l'
     = filter (fun y => tied lt k (key y)) l) ->
  l' = sorted_reverse key lt l.
Proof.
  intros Gl Gl' Sl' Hf.
  apply stable_descending_unique; trivial.
  - apply (good_keys_perm key good
             (Permutation_sym (sorted_reverse_perm key lt l))). exact Gl.
  - now apply (sorted_reverse_sorted key lt good).
  - intros k Hk. rewrite Hf by exact Hk. symmetry.
    now apply (filter_sorted_reverse key lt good).
Qed.

End StableUnique.

(** ** Ranking *)

Definition no_nan (results : list Result) : Prop :=
  Forall (fun r => is_nan (Raw_Score r) = false) results.

(** [a] stands before [b] in descending order of raw score. *)
Definition score_ge (a b : Result) : Prop :=
  SFleb (Raw_Score b) (Raw_Score a) = true.

(** The results whose raw score compares equal to [score]. *)
Definition with_score (score : float) (results : list Result) : list Result :=
  filter (fun r => SFeqb (Raw_Score r) score) results.

Lemma tied_eqb (a b : float) :
  is_nan a = false -> is_nan b = false -> tied ltb a b = SFeqb b a.
Proof.
  unfold tied, ltb, SFltb, SFeqb, SFcompare, is_nan.
  change (Pos.compare_cont Eq) with Pos.compare.
  destruct a as [[]|[]| |[] m1 e1], b as [[]|[]| |[] m2 e2];
    try reflexivity; try discriminate; intros _ _;
    rewrite (Z.compare_antisym e1 e2), (Pos.compare_antisym m1 m2);
    destruct (e1 ?= e2)%Z; simpl; try reflexivity;
    destruct (m1 ?= m2)%positive; reflexivity.
Qed.

Lemma map_fst_enumerate {A} (l : list A) : forall start,
  map fst (enumerate start l) = seq start (length l).
Proof. induction l as [|x l IH]; intros s; simpl; [|rewrite IH]; reflexivity. Qed.

Lemma map_snd_enumerate {A} (l : list A) : forall start,
  map snd (enumerate start l) = l.
Proof. induction l as [|x l IH]; intros s; simpl; [|rewrite IH]; reflexivity. Qed.

Lemma download_rows_enumerate sorted_results :
  download_rows sorted_results =
  map (fun '(idx, res) => (idx, Document res, Match_Score res))
      (enumerate 1 sorted_results).
Proof.
  unfold download_rows.
  assert (H : forall start,
    map (fun '(i, res) => (i + 1, Document res, Match_Score res))
        (enumerate start sorted_results) =
    map (fun '(idx, res) => (idx, Document res, Match_Score res))
        (enumerate (S start) sorted_results)).
  { induction sorted_results as [|r l IH]; intros s; simpl; [reflexivity|].
    now rewrite IH, Nat.add_1_r. }
  apply H.
Qed.

Lemma sorted_by_raw_score_perm results :
  Permutation (sorted_by_raw_score results) results.
Proof. apply sorted_reverse_perm. Qed.

Lemma no_nan_sorted results :
  no_nan results -> no_nan (sorted_by_raw_score results).
Proof.
  apply Permutation_Forall, Permutation_sym, sorted_by_raw_score_perm.
Qed.

Lemma sorted_by_raw_score_descending results :
  no_nan results -> StronglySorted score_ge (sorted_by_raw_score results).
Proof.
  intros Hn.
  assert (Hd : StronglySorted (descending Raw_Score ltb)
                 (sorted_by_raw_score results)).
  { apply (sorted_reverse_sorted Raw_Score ltb
             (fun k => is_nan k = false)); trivial.
    - intros a b _ _. apply ltb_asym.
    - intros a b c _ _ Hc. now apply ltb_cotrans. }
  apply no_nan_sorted in Hn. revert Hn.
  induction Hd as [|r l Hs IH Hr]; intros Hn; constructor.
  - apply IH. now inversion Hn.
  - inversion Hn as [|? ? Nr Nl]; subst.
    rewrite Forall_forall in *. intros z Hz.
    apply ltb_false_leb; auto. apply (Hr z Hz).
Qed.

Lemma sorted_by_raw_score_stable results score :
  no_nan results -> is_nan score = false ->
  with_score score (sorted_by_raw_score results) = with_score score results.
Proof.
  intros Hn Hs. unfold with_score.
  rewrite (filter_ext_in _ (fun r => tied ltb score (Raw_Score r))).
  2:{ intros r Hr. symmetry. apply tied_eqb; trivial.
      pose proof (no_nan_sorted _ Hn) as Hn'.
      unfold no_nan in Hn'. rewrite Forall_forall in Hn'. now apply Hn'. }
  rewrite (filter_ext_in _ (fun r => tied ltb score (Raw_Score r)) results).
  2:{ intros r Hr. symmetry. apply tied_eqb; trivial.
      unfold no_nan in Hn. rewrite Forall_forall in Hn. now apply Hn. }
  apply (filter_sorted_reverse Raw_Score ltb (fun k => is_nan k = false));
    trivial.
  - intros a b c _ _ Hc. now apply ltb_cotrans.
Qed.

(** Any list in descending order of raw score in which tied results keep
    their input order is the list computed here. *)
Lemma sorted_by_raw_score_unique results sorted_results :
  no_nan results -> no_nan sorted_results ->
  StronglySorted (descending Raw_Score ltb) sorted_results ->
  (forall k, is_nan k = false ->
     filter (fun r => tied ltb k (Raw_Score r)) sorted_results
     = filter (fun r => tied ltb k (Raw_Score r)) results) ->
  sorted_results = sorted_by_raw_score results.
Proof.
  intros Hn Hn' Hs Hf.
  apply (sorted_reverse_unique Raw_Score ltb (fun k => is_nan k = false));
    trivial.
  - intros a b _ _. apply ltb_asym.
  - intros a b c _ _ Hc. now apply ltb_cotrans.
Qed.

(** C2. Ranking a list of [N] results whose raw scores are numbers: the
    rank positions given by [enumerate(sorted_results, 1)] are exactly
    [1, ..., N], each once; the ranked results are the input results,
    reordered; they are in descending order of raw score; the results whose
    raw scores compare equal keep their relative input order; and the rows
    of the download carry the same rank positions. *)
Theorem C2_ranking_dense_descending_stable (results : list Result) :
  no_nan results ->
  let sorted_results := sorted_by_raw_score results in
  let ranked := enumerate 1 sorted_results in
  map fst ranked = seq 1 (length results)
  /\ Permutation (map snd ranked) results
  /\ StronglySorted score_ge (map snd ranked)
  /\ (forall score, is_nan score = false ->
        with_score score (map snd ranked) = with_score score results)
  /\ download_rows sorted_results =
       map (fun '(idx, res) => (idx, Document res, Match_Score res)) ranked.
Proof.
  intros Hn sorted_results ranked. subst ranked.
  rewrite map_fst_enumerate, map_snd_enumerate.
  repeat split.
  - f_equal. apply Permutation_length, sorted_by_raw_score_perm.
  - apply sorted_by_raw_score_perm.
  - now apply sorted_by_raw_score_descending.
  - intros score Hs. now apply sorted_by_raw_score_stable.
  - apply download_rows_enumerate.
Qed.

(** Three results, two of them with the same score. *)
Definition sample_results : list Result :=
  make_results [lit "a.pdf"; lit "b.docx"; lit "c.pdf"] [f0_3; f0_5; f0_3].

Lemma C2_ranking_witness :
  no_nan sample_results
  /\ map Document (sorted_by_raw_score sample_results)
     = [lit "b.docx"; lit "a.pdf"; lit "c.pdf"]
  /\ map fst (enumerate 1 (sorted_by_raw_score sample_results)) = [1; 2; 3].
Proof.
  assert (Hn : no_nan sample_results) by (repeat constructor).
  split; [exact Hn|]. split; [reflexivity|].
  exact (proj1 (C2_ranking_dense_descending_stable sample_results Hn)).
Defined.

(** ** The displayed score *)

(** The exact value of the magnitude [m * 2^e] of a finite float. *)
Definition magnitude (m : positive) (e : Z) : Q :=
  match e with
  | Zneg p => (Zpos m # (2 ^ p)%positive)%Q
  | _ => inject_Z (Zpos m * 2 ^ e)
  end.

(** The same result with another string in [Match Score]. *)
Definition set_match_score (relabel : Result -> str) (r : Result) : Result :=
  {| Document := Document r;
     Match_Score := relabel r;
     Raw_Score := Raw_Score r |}.

(** [text] is [sign], then a decimal number with exactly two digits after
    the point, then the percent sign; the number is within 0.005 of the
    exact magnitude [m * 2^e]. *)
Definition two_decimals_of (sign : bool) (m : positive) (e : Z) (text : str)
    : Prop :=
  exists int_part d1 d2 : N,
    (d1 < 10)%N /\ (d2 < 10)%N
    /\ text = sign_str sign ++ str_of_N int_part ++ lit "."
              ++ [(48 + d1)%N; (48 + d2)%N] ++ lit "%"
    /\ (Qabs ((Z.of_N (100 * int_part + 10 * d1 + d2) # 100) - magnitude m e)
        <= 1 # 200)%Q.

(** The [Match Score] of [r] is the rendering of its [Raw Score] times 100,
    rounded to two decimals. *)
Definition rendered_from_raw (r : Result) : Prop :=
  Match_Score r = format_2f (mul (Raw_Score r) f100) ++ lit "%"
  /\ match mul (Raw_Score r) f100 with
     | S754_finite sign m e => two_decimals_of sign m e (Match_Score r)
     | _ => True
     end.

Lemma round_half_even_nearest (num den : Z) :
  (0 < den)%Z -> (0 <= num)%Z ->
  (0 <= round_half_even num den
   /\ 2 * Z.abs (round_half_even num den * den - num) <= den)%Z.
Proof.
  intros Hd Hn. unfold round_half_even.
  pose proof (Z.div_mod num den ltac:(lia)) as E.
  pose proof (Z.mod_pos_bound num den Hd) as B.
  pose proof (Z.div_pos num den Hn Hd) as P.
  destruct (Z.compare_spec (2 * (num mod den)) den) as [C|C|C];
    [destruct (Z.even (num / den))| |]; nia.
Qed.

Lemma hundredths_nearest (m : positive) (e : Z) :
  (0 <= hundredths m e)%Z
  /\ (Qabs ((hundredths m e # 100) - magnitude m e) <= 1 # 200)%Q.
Proof.
  unfold hundredths, magnitude. destruct e as [|p|p].
  - split; [lia|]. apply Qabs_Qle_condition.
    unfold Qle, Qminus, Qplus, Qopp, inject_Z. cbn [Qnum Qden]. lia.
  - assert (0 < 2 ^ Zpos p)%Z by (apply Z.pow_pos_nonneg; lia).
    split; [lia|]. apply Qabs_Qle_condition.
    unfold Qle, Qminus, Qplus, Qopp, inject_Z. cbn [Qnum Qden]. lia.
  - assert (E : (2 ^ Zpos p = Zpos (2 ^ p))%Z)
      by (symmetry; apply Pos2Z.inj_pow).
    rewrite E.
    destruct (round_half_even_nearest (Zpos m * 100) (Zpos (2 ^ p)))
      as [H0 H1]; [lia|lia|].
    split; [exact H0|]. apply Qabs_Qle_condition.
    unfold Qle, Qminus, Qplus, Qopp, inject_Z. cbn [Qnum Qden].
    set (h := round_half_even _ _) in *.
    rewrite !Pos2Z.inj_mul. nia.
Qed.

Lemma format_2f_two_decimals sign m e :
  two_decimals_of sign m e (format_2f (S754_finite sign m e) ++ lit "%").
Proof.
  destruct (hundredths_nearest m e) as [H0 H1].
  unfold format_2f, two_digits.
  set (h := Z.to_N (hundredths m e)).
  exists (h / 100)%N, (h mod 100 / 10)%N, (h mod 100 mod 10)%N.
  assert (B : (h mod 100 < 100)%N) by (apply N.mod_lt; lia).
  repeat split.
  - apply N.Div0.div_lt_upper_bound. lia.
  - apply N.mod_lt. lia.
  - now rewrite <- !app_assoc.
  - replace (Z.of_N _) with (hundredths m e); [exact H1|].
    pose proof (N.div_mod h 100 ltac:(lia)).
    pose proof (N.div_mod (h mod 100) 10 ltac:(lia)).
    subst h. lia.
Qed.

Lemma make_results_rendered names similarity_scores :
  Forall rendered_from_raw (make_results names similarity_scores).
Proof.
  unfold make_results. apply Forall_forall. intros r Hr.
  apply in_map_iff in Hr. destruct Hr as [[name score] [<- _]].
  unfold rendered_from_raw, match_score; simpl. split; [reflexivity|].
  destruct (mul score f100) eqn:E; trivial.
  apply format_2f_two_decimals.
Qed.

Lemma no_nan_make_results names similarity_scores :
  Forall (fun score => is_nan score = false) similarity_scores ->
  no_nan (make_results names similarity_scores).
Proof.
  intros H. unfold no_nan, make_results. apply Forall_forall. intros r Hr.
  apply in_map_iff in Hr. destruct Hr as [[name score] [<- Hin]]. simpl.
  apply in_combine_r in Hin. rewrite Forall_forall in H. now apply H.
Qed.

(** The sort looks at the keys only. *)
Lemma insert_map {A B K} (keyA : A -> K) (keyB : B -> K) lt (g : A -> B) :
  (forall x, keyB (g x) = keyA x) ->
  forall x l, insert keyB lt (g x) (map g l) = map g (insert keyA lt x l).
Proof.
  intros Hg x l. induction l as [|y l IH]; simpl; [reflexivity|].
  rewrite !Hg. destruct (lt (keyA y) (keyA x)); simpl; [|reflexivity].
  now rewrite IH.
Qed.

Lemma sorted_reverse_map {A B K} (keyA : A -> K) (keyB : B -> K) lt
    (g : A -> B) :
  (forall x, keyB (g x) = keyA x) ->
  forall l, sorted_reverse keyB lt (map g l) = map g (sorted_reverse keyA lt l).
Proof.
  intros Hg l. unfold sorted_reverse.
  rewrite <- (map_rev g l), (map_rev g (sort_stable keyA lt (rev l))).
  f_equal. induction (rev l) as [|x l' IH]; simpl; [reflexivity|].
  rewrite IH. now apply insert_map.
Qed.

(** C9. In the sorted results, every [Match Score] is the rendering of the
    entry's own [Raw Score] times 100 with two digits after the point and a
    percent sign, the printed number being within 0.005 of the exact value
    of the product; the order of the sorted results does not depend on the
    rendered strings (replacing them by any other strings leaves every
    entry at its place); and the order is descending in the raw score. *)
Theorem C9_match_score_rendered_sort_on_raw (names : list str)
    (similarity_scores : list float) :
  let results := make_results names similarity_scores in
  let sorted_results := sorted_by_raw_score results in
  Forall rendered_from_raw sorted_results
  /\ (forall relabel : Result -> str,
        sorted_by_raw_score (map (set_match_score relabel) results)
        = map (set_match_score relabel) sorted_results)
  /\ (Forall (fun score => is_nan score = false) similarity_scores ->
      StronglySorted score_ge sorted_results).
Proof.
  intros results sorted_results. repeat split.
  - apply (Permutation_Forall
             (Permutation_sym (sorted_by_raw_score_perm results))).
    apply make_results_rendered.
  - intros relabel. unfold sorted_results, sorted_by_raw_score.
    now apply sorted_reverse_map.
  - intros Hn. apply sorted_by_raw_score_descending.
    now apply no_nan_make_results.
Qed.

(** ** Facts on strings *)

Lemma lstrip_spec (s : str) :
  exists pre, s = pre ++ lstrip s /\ forallb isspace pre = true.
Proof.
  induction s as [|c s [pre [E H]]]; simpl.
  - exists []. split; reflexivity.
  - destruct (isspace c) eqn:Ec.
    + exists (c :: pre). simpl. rewrite Ec, H. split; [|reflexivity].
      now rewrite <- E.
    + exists []. split; reflexivity.
Qed.

Lemma lstrip_head (s : str) (c : char) :
  hd_error (lstrip s) = Some c -> isspace c = false.
Proof.
  induction s as [|d s IH]; simpl; [discriminate|].
  destruct (isspace d) eqn:Ed; [exact IH|].
  simpl. intros [= <-]. exact Ed.
Qed.

Lemma rstrip_spec (s : str) :
  exists post, s = rstrip s ++ post /\ forallb isspace post = true.
Proof.
  unfold rstrip. destruct (lstrip_spec (rev s)) as [pre [E H]].
  exists (rev pre). split.
  - rewrite <- rev_app_distr, <- E. now rewrite rev_involutive.
  - rewrite forallb_forall in *. intros c Hc. apply H. now apply in_rev.
Qed.

Lemma rstrip_last (s : str) (c : char) :
  hd_error (rev (rstrip s)) = Some c -> isspace c = false.
Proof. unfold rstrip. rewrite rev_involutive. apply lstrip_head. Qed.

(** [strip] removes a run of whitespace at each end and leaves a string
    that neither starts nor ends with whitespace. *)
Lemma strip_spec (s : str) :
  exists pre post,
    s = pre ++ strip s ++ post
    /\ forallb isspace pre = true /\ forallb isspace post = true
    /\ (forall c, hd_error (strip s) = Some c -> isspace c = false)
    /\ (forall c, hd_error (rev (strip s)) = Some c -> isspace c = false).
Proof.
  unfold strip.
  destruct (lstrip_spec s) as [pre [E1 H1]].
  destruct (rstrip_spec (lstrip s)) as [post [E2 H2]].
  exists pre, post. repeat split; trivial.
  - now rewrite <- E2.
  - intros c Hc. apply (lstrip_head s).
    rewrite E2. destruct (rstrip (lstrip s)); [discriminate|exact Hc].
  - apply rstrip_last.
Qed.

Lemma lstrip_whitespace (s : str) : forallb isspace s = true -> lstrip s = [].
Proof.
  induction s as [|c s IH]; simpl; [reflexivity|].
  intros H. apply andb_prop in H. destruct H as [-> H]. now apply IH.
Qed.

Lemma strip_whitespace (s : str) : forallb isspace s = true -> strip s = [].
Proof. intros H. unfold strip. now rewrite (lstrip_whitespace s H). Qed.

Lemma or_empty_Some (s : str) : or_empty (Some s) = s.
Proof. destruct s; reflexivity. Qed.

Lemma startswith_app (s rest : str) : startswith (s ++ rest) s = true.
Proof.
  induction s as [|c s IH]; simpl; [now destruct rest|].
  now rewrite N.eqb_refl, IH.
Qed.

Lemma contains_app (pre s post : str) : contains (pre ++ s ++ post) s = true.
Proof.
  assert (U : forall t sub, startswith t sub = true -> contains t sub = true).
  { intros t sub H. destruct t; cbn [contains]; now rewrite H. }
  induction pre as [|c pre IH]; simpl.
  - apply U, startswith_app.
  - rewrite IH. apply orb_true_r.
Qed.

(** ** Sample uploads and a small instance of the interface *)

(** A PDF whose pages have the given texts ([None]: no extractable text). *)
Definition pdf_file (file_name : str) (pages : list (option str))
    : UploadedFile :=
  {| name := file_name;
     pdfplumber_open :=
       Ok (map (fun text => {| page_extract_text := Ok text |}) pages);
     docx_Document := Raise (lit "File is not a zip file") |}.

(** A file that neither parser can read. *)
Definition corrupt_file (file_name : str) : UploadedFile :=
  {| name := file_name;
     pdfplumber_open := Raise (lit "No /Root object! - Is this really a PDF?");
     docx_Document := Raise (lit "File is not a zip file") |}.

Definition alnum (c : char) : bool :=
  ((48 <=? c) && (c <=? 57) || (65 <=? c) && (c <=? 90)
   || (97 <=? c) && (c <=? 122))%N.

(** The share of the characters of [d] that occur in [q]. *)
Definition overlap (q d : str) : float :=
  match d with
  | [] => S754_zero false
  | _ =>
      div (of_Z (Z.of_nat (length (filter (fun c => existsb (N.eqb c) q) d))))
          (of_Z (Z.of_nat (length d)))
  end.

(** An instance to run the script on examples: documents are compared by
    the letters and digits they share; fitting raises when the documents
    contain neither letter nor digit. *)
Definition overlap_sklearn : Sklearn :=
  {| Fitted := str;
     Vector := str;
     fit := fun _ docs =>
       match filter alnum (concat docs) with
       | [] => Raise (lit "empty vocabulary")
       | vocabulary => Ok vocabulary
       end;
     transform := fun _ doc => filter alnum doc;
     cosine := overlap |}.

Definition good_pdf : UploadedFile :=
  pdf_file (lit "good.pdf")
    [Some (lit "python developer"); None; Some (lit " rust ")].

Definition blank_pdf : UploadedFile := pdf_file (lit "blank.pdf") [None].

Definition chef_pdf : UploadedFile :=
  pdf_file (lit "chef.pdf") [Some (lit "chef with cooking skills")].

Definition broken_pdf : UploadedFile := corrupt_file (lit "broken.pdf").

Definition sample_query : str := lit "software engineer python".

(** ** Extraction *)

Section Extraction.
Context {SK : Sklearn}.

(** What a page contributes to the joined text: its text, or the empty
    string when it has none. *)
Definition page_contributes (page : Page) (text : str) : Prop :=
  (page_extract_text page = Ok None /\ text = [])
  \/ page_extract_text page = Ok (Some text).

Lemma comprehension_pages pages :
  Forall (fun page => exists x, page_extract_text page = Ok x) pages ->
  exists texts,
    Forall2 page_contributes pages texts
    /\ comprehension
         (fun page => (x <-? page_extract_text page ; Ok (or_empty x))%result)
         pages = Ok texts.
Proof.
  induction 1 as [|page pages [x Hx] _ [texts [IH1 IH2]]]; simpl.
  - exists []. split; constructor.
  - exists (or_empty x :: texts). rewrite Hx, IH2. simpl.
    split; [|reflexivity]. constructor; [|exact IH1].
    destruct x as [s|]; [right|left; split; trivial].
    now rewrite or_empty_Some.
Qed.

(** The code points that [str.strip()] removes: the whitespace of
    Unicode, as CPython has it. *)
Definition whitespace_code_points : list char :=
  [9; 10; 11; 12; 13; 28; 29; 30; 31; 32; 133; 160; 5760;
   8192; 8193; 8194; 8195; 8196; 8197; 8198; 8199; 8200; 8201; 8202;
   8232; 8233; 8239; 8287; 12288]%N.

Definition whitespace (s : str) : Prop :=
  Forall (fun c => In c whitespace_code_points) s.

Lemma isspace_whitespace (c : char) :
  isspace c = true <-> In c whitespace_code_points.
Proof.
  split.
  - unfold isspace.
    rewrite !orb_true_iff, !andb_true_iff, !N.leb_le, !N.eqb_eq.
    unfold whitespace_code_points. simpl In. lia.
  - unfold whitespace_code_points. simpl In. intros H.
    repeat (destruct H as [<-|H]; [reflexivity|]). contradiction.
Qed.

Lemma forallb_isspace_whitespace (s : str) :
  forallb isspace s = true -> whitespace s.
Proof.
  intros H. apply Forall_forall. intros c Hc.
  apply isspace_whitespace. rewrite forallb_forall in H. now apply H.
Qed.

Lemma not_isspace_not_whitespace (c : char) :
  isspace c = false -> ~ In c whitespace_code_points.
Proof.
  intros H Hin. apply isspace_whitespace in Hin. congruence.
Qed.

(** Joining with one space: the first text, then each of the others after
    one space (code point 32). *)
Lemma join_one_space (texts : list str) :
  join (lit " ") texts
  = match texts with
    | [] => []
    | first :: others => first ++ flat_map (fun text => 32%N :: text) others
    end.
Proof.
  destruct texts as [|first others]; [reflexivity|].
  revert first. induction others as [|next others IH]; intros first.
  - simpl. now rewrite app_nil_r.
  - change (join (lit " ") (first :: next :: others))
      with (first ++ [32%N] ++ join (lit " ") (next :: others)).
    now rewrite IH.
Qed.

(** C8. On a file named [*.pdf] that opens and whose pages all answer,
    [extract_text] returns, with no error reported, a text such that: the
    texts of all the pages in order (the empty string for a page without
    text), put one after the other with exactly one space between two
    consecutive ones, are this text between a run of whitespace before it
    and a run of whitespace after it, and the text neither starts nor ends
    with whitespace. *)
Theorem C8_pdf_pages_joined_and_stripped (file : UploadedFile)
    (pages : list Page) (w : world) :
  endswith (name file) (lit ".pdf") = true ->
  pdfplumber_open file = Ok pages ->
  Forall (fun page => exists x, page_extract_text page = Ok x) pages ->
  exists texts pre text post,
    Forall2 page_contributes pages texts
    /\ extract_text file w = (Done text, w)
    /\ match texts with
       | [] => []
       | first :: others => first ++ flat_map (fun t => 32%N :: t) others
       end = pre ++ text ++ post
    /\ whitespace pre /\ whitespace post
    /\ (forall c, hd_error text = Some c -> ~ In c whitespace_code_points)
    /\ (forall c, hd_error (rev text) = Some c ->
                  ~ In c whitespace_code_points).
Proof.
  intros Hname Hopen Hpages.
  destruct (comprehension_pages _ Hpages) as [texts [Hc Htexts]].
  destruct (strip_spec (join (lit " ") texts))
    as [pre [post [E [Hpre [Hpost [Hhd Hlast]]]]]].
  exists texts, pre, (strip (join (lit " ") texts)), post.
  split; [exact Hc|]. split; [|split; [|split; [|split; [|split]]]].
  - rewrite extract_text_run. unfold text_of, errors_of, extract_text_body.
    rewrite Hname, Hopen. cbn [rbind]. rewrite Htexts. cbn [rbind].
    now rewrite add_events_nil.
  - rewrite <- join_one_space. exact E.
  - now apply forallb_isspace_whitespace.
  - now apply forallb_isspace_whitespace.
  - intros c Hc'. now apply not_isspace_not_whitespace, Hhd.
  - intros c Hc'. now apply not_isspace_not_whitespace, Hlast.
Qed.

End Extraction.

Lemma C8_pdf_witness :
  endswith (name good_pdf) (lit ".pdf") = true
  /\ extract_text (SK := overlap_sklearn) good_pdf fresh
     = (Done (lit "python developer   rust"), fresh)
  /\ exists pre post,
       lit "python developer" ++ [32%N] ++ [32%N] ++ lit " rust "
       = pre ++ lit "python developer   rust" ++ post
       /\ whitespace pre /\ whitespace post.
Proof.
  split; [reflexivity|].
  assert (Hrun0 : extract_text (SK := overlap_sklearn) good_pdf fresh
                  = (Done (lit "python developer   rust"), fresh))
    by reflexivity.
  split; [exact Hrun0|].
  destruct (C8_pdf_pages_joined_and_stripped (SK := overlap_sklearn) good_pdf
              (map (fun text => {| page_extract_text := Ok text |})
                 [Some (lit "python developer"); None; Some (lit " rust ")])
              fresh)
    as [texts [pre [text [post [Hc [Hrun [Hj [Hpre [Hpost _]]]]]]]]].
  - reflexivity.
  - reflexivity.
  - repeat constructor; eexists; reflexivity.
  - rewrite Hrun0 in Hrun. injection Hrun as <-.
    exists pre, post. split; [|split; assumption].
    rewrite <- Hj. simpl in Hc.
    inversion Hc as [|p1 t1 ps1 ts1 H1 Hc1]; subst.
    inversion Hc1 as [|p2 t2 ps2 ts2 H2 Hc2]; subst.
    inversion Hc2 as [|p3 t3 ps3 ts3 H3 Hc3]; subst.
    inversion Hc3; subst.
    destruct H1 as [[H1 _]|H1]; [discriminate|]. injection H1 as <-.
    destruct H2 as [[_ ->]|H2]; [|discriminate].
    destruct H3 as [[H3 _]|H3]; [discriminate|]. injection H3 as <-.
    reflexivity.
Defined.

(** ** Reading a trace *)

(** The ranked output: the cards shown, in order, as (rank, document,
    match score, raw score). *)
Definition ranked_of (evs : list event) : list (nat * str * str * float) :=
  flat_map (fun ev =>
              match ev with
              | st_markdown idx document score raw _ =>
                  [(idx, document, score, raw)]
              | _ => []
              end) evs.

(** The messages of the errors reported. *)
Definition error_messages (evs : list event) : list str :=
  flat_map (fun ev =>
              match ev with
              | st_error msg => [msg]
              | _ => []
              end) evs.

(** The calls to [fit_transform]: the stop words of the vectorizer and the
    documents it is fitted on. *)
Definition fit_calls (evs : list event) : list (str * list str) :=
  flat_map (fun ev =>
              match ev with
              | call_fit_transform sw docs => [(sw, docs)]
              | _ => []
              end) evs.

(** Whether an error, a warning or the success message names the file. *)
Definition reported (evs : list event) (file : UploadedFile) : bool :=
  existsb (fun ev =>
             match ev with
             | st_error msg | st_warning msg | st_success msg =>
                 contains msg (name file)
             | _ => false
             end) evs.

(** How [extract_text] ended on a file: in the handler, or with an empty
    or a non-empty string out of the [try] block. The script sees of it
    the returned string and the error reported. *)
Inductive status := Success | Empty | Failed.

Definition extraction_status (file : UploadedFile) : status :=
  match extract_text_body file with
  | Raise _ => Failed
  | Ok text => if truthy text then Success else Empty
  end.

(** The errors that the extraction loop reports: one for each file whose
    parse raised, in upload order. *)
Definition parse_errors (resumes : list UploadedFile) : list str :=
  flat_map (fun file =>
              match extract_text_body file with
              | Raise e => [error_processing file e]
              | Ok _ => []
              end) resumes.

Lemma loop_events_app before after : forall len_resumes i,
  loop_events len_resumes i (before ++ after) =
  loop_events len_resumes i before
  ++ loop_events len_resumes (i + length before) after.
Proof.
  induction before as [|file before IH]; intros n i; simpl.
  - now rewrite Nat.add_0_r.
  - rewrite IH, <- app_assoc.
    now replace (S i + length before) with (i + S (length before)) by lia.
Qed.

Lemma loop_events_progress rest file : forall len_resumes i,
  In file rest ->
  exists k, In (st_progress k len_resumes (processing file))
              (loop_events len_resumes i rest).
Proof.
  induction rest as [|r rest IH]; intros n i Hin; [contradiction|].
  destruct Hin as [->|Hin]; simpl.
  - exists (i + 1). now left.
  - destruct (IH n (S i) Hin) as [k Hk]. exists k.
    right. apply in_or_app. now right.
Qed.

Lemma error_messages_loop rest : forall len_resumes i,
  error_messages (loop_events len_resumes i rest) = parse_errors rest.
Proof.
  unfold error_messages, parse_errors.
  induction rest as [|r rest IH]; intros n i; simpl; [reflexivity|].
  rewrite flat_map_app, IH. f_equal.
  unfold errors_of. destruct (extract_text_body r); reflexivity.
Qed.

Lemma ranked_of_loop rest : forall len_resumes i,
  ranked_of (loop_events len_resumes i rest) = [].
Proof.
  unfold ranked_of.
  induction rest as [|r rest IH]; intros n i; simpl; [reflexivity|].
  rewrite flat_map_app, IH, app_nil_r.
  unfold errors_of. destruct (extract_text_body r); reflexivity.
Qed.

Lemma fit_calls_loop rest : forall len_resumes i,
  fit_calls (loop_events len_resumes i rest) = [].
Proof.
  unfold fit_calls.
  induction rest as [|r rest IH]; intros n i; simpl; [reflexivity|].
  rewrite flat_map_app, IH, app_nil_r.
  unfold errors_of. destruct (extract_text_body r); reflexivity.
Qed.

Lemma survivors_without before file after :
  text_of file = [] ->
  survivors (before ++ file :: after) = survivors (before ++ after)
  /\ surviving_texts (before ++ file :: after)
     = surviving_texts (before ++ after).
Proof.
  intros H. unfold survivors, surviving_texts.
  rewrite !map_app, !filter_app. simpl. now rewrite H.
Qed.

Section PerDocument.
Context {SK : Sklearn}.

(** C5. When the parse of a file raises, [extract_text] catches the
    exception, reports one error whose message contains the name of the
    file and the message of the exception, and returns the empty string:
    the extraction ended as Failed. The loop goes on: it ends normally on
    the whole batch, the files after the failing one are each processed,
    and the loop keeps exactly what it keeps of the batch without the
    failing file. *)
Theorem C5_parse_error_reported_batch_continues
    (before after : list UploadedFile) (file : UploadedFile) (e : exn)
    (w : world) :
  extract_text_body file = Raise e ->
  let resumes := before ++ file :: after in
  let report := st_error (error_processing file e) in
  extract_text file w = (Done [], add_events w [report])
  /\ contains (error_processing file e) (name file) = true
  /\ extraction_status file = Failed
  /\ exists w',
       extraction_loop (length resumes) 0 resumes [] [] w
       = (Done (survivors (before ++ after),
                surviving_texts (before ++ after)), w')
       /\ emitted w w'
          = loop_events (length resumes) 0 before
            ++ st_progress (length before + 1) (length resumes)
                 (processing file)
               :: report
               :: loop_events (length resumes) (S (length before)) after
       /\ Forall (fun later =>
                    exists k, In (st_progress k (length resumes)
                                    (processing later)) (emitted w w'))
                 after.
Proof.
  intros He resumes report.
  assert (Ht : text_of file = []) by (unfold text_of; now rewrite He).
  assert (Hr : errors_of file = [report])
    by (unfold errors_of; now rewrite He).
  repeat split.
  - now rewrite extract_text_run, Ht, Hr.
  - unfold error_processing. apply (contains_app (lit "Error processing ")).
  - unfold extraction_status. now rewrite He.
  - eexists. rewrite extraction_loop_run, emitted_add_events.
    destruct (survivors_without before file after Ht) as [Hs1 Hs2].
    fold resumes in Hs1, Hs2. simpl. rewrite Hs1, Hs2.
    assert (Hev : loop_events (length resumes) 0 resumes
                  = loop_events (length resumes) 0 before
                    ++ st_progress (length before + 1) (length resumes)
                         (processing file)
                       :: report
                       :: loop_events (length resumes) (S (length before))
                            after).
    { unfold resumes at 2. rewrite loop_events_app. simpl.
      now rewrite Hr. }
    repeat split; [exact Hev|].
    apply Forall_forall. intros later Hl. rewrite Hev.
    destruct (loop_events_progress after later (length resumes)
                (S (length before)) Hl) as [k Hk].
    exists k. apply in_or_app. right. right. right. exact Hk.
Qed.

End PerDocument.

Lemma C5_parse_error_witness :
  extract_text_body broken_pdf = Raise (lit "No /Root object! - Is this really a PDF?")
  /\ extract_text (SK := overlap_sklearn) broken_pdf fresh
     = (Done [],
        add_events fresh
          [st_error (lit "Error processing broken.pdf: No /Root object! - Is this really a PDF?")])
  /\ extraction_status broken_pdf = Failed.
Proof.
  split; [reflexivity|].
  destruct (C5_parse_error_reported_batch_continues (SK := overlap_sklearn)
              [good_pdf] [chef_pdf] broken_pdf _ fresh eq_refl)
    as [Hrun [_ [Hstatus _]]].
  split; [exact Hrun | exact Hstatus].
Defined.

(** ** The matching block, seen from outside *)

Section Block.
Context {SK : Sklearn}.

(** What follows the extraction loop, for a vectorizer with stop words
    [sw]: the outcome and the events. *)
Definition after_extraction (sw : str) (resumes : list UploadedFile)
    (job_description : str) : outcome unit * list event :=
  let corpus := job_description :: surviving_texts resumes in
  let call := call_fit_transform sw corpus in
  match surviving_texts resumes with
  | [] => (Stop, [st_error no_valid_text])
  | _ :: _ =>
      match fit sw corpus with
      | Raise e => (Stop, [call; st_error (error_in_processing e)])
      | Ok f =>
          (Done tt,
           call :: display_events
                     (sorted_results_of f job_description resumes))
      end
  end.

(** The card of a result, as read back from the trace. *)
Definition card_of (card : nat * Result) : nat * str * str * float :=
  let '(idx, r) := card in (idx, Document r, Match_Score r, Raw_Score r).

(** The score a file gets under a fitted vectorizer. *)
Definition score_of (f : Fitted) (job_description : str)
    (file : UploadedFile) : float :=
  cosine (transform f job_description) (transform f (text_of file)).

Lemma emitted_got_vectorizer w evs :
  emitted w (add_events (got_vectorizer w) evs) = evs.
Proof.
  unfold emitted, add_events, got_vectorizer; simpl.
  now rewrite skipn_app, skipn_all, Nat.sub_diag.
Qed.

Lemma emitted_fitted_world w f evs : emitted w (fitted_world w f evs) = evs.
Proof.
  unfold emitted, fitted_world; simpl.
  now rewrite skipn_app, skipn_all, Nat.sub_diag.
Qed.

Lemma emitted_unfitted_world w evs : emitted w (unfitted_world w evs) = evs.
Proof.
  unfold emitted, unfitted_world; simpl.
  now rewrite skipn_app, skipn_all, Nat.sub_diag.
Qed.

Lemma matching_outcome_events resumes job_description w :
  let run := matching resumes job_description w in
  let rest := after_extraction (stop_words (cached w)) resumes job_description in
  fst run = fst rest
  /\ emitted w (snd run) = extraction_events resumes ++ snd rest.
Proof.
  cbv zeta. rewrite matching_run. unfold after_extraction. cbv zeta.
  destruct (surviving_texts resumes) as [|text texts].
  - simpl. now rewrite emitted_got_vectorizer.
  - destruct (fit (stop_words (cached w)) (job_description :: text :: texts));
      simpl; now rewrite ?emitted_unfitted_world, ?emitted_fitted_world.
Qed.

(** A run leaves in the cache a vectorizer with the stop words it found:
    as it was if no file survives, fitted on the corpus of the run if the
    fit succeeded, and not fitted if the fit raised. *)
Lemma matching_cache resumes job_description w :
  let corpus := job_description :: surviving_texts resumes in
  cache_resource (snd (matching resumes job_description w)) =
  Some {| stop_words := stop_words (cached w);
          fitted :=
            match surviving_texts resumes,
                  fit (stop_words (cached w)) corpus with
            | [], _ => fitted (cached w)
            | _ :: _, Ok f => Some f
            | _ :: _, Raise _ => None
            end |}.
Proof.
  cbv zeta. rewrite matching_run. cbv zeta.
  destruct (surviving_texts resumes) as [|text texts].
  - simpl. now destruct (cached w).
  - destruct (fit (stop_words (cached w)) (job_description :: text :: texts));
      reflexivity.
Qed.

Lemma views_extraction_events resumes :
  ranked_of (extraction_events resumes) = []
  /\ fit_calls (extraction_events resumes) = []
  /\ error_messages (extraction_events resumes) = parse_errors resumes.
Proof.
  unfold extraction_events. repeat split.
  - apply ranked_of_loop.
  - apply fit_calls_loop.
  - apply error_messages_loop.
Qed.

Lemma views_display_events sorted_results :
  ranked_of (display_events sorted_results)
    = map card_of (enumerate 1 sorted_results)
  /\ fit_calls (display_events sorted_results) = []
  /\ error_messages (display_events sorted_results) = [].
Proof.
  unfold display_events, ranked_of, fit_calls, error_messages. simpl.
  rewrite !flat_map_app. simpl. rewrite !app_nil_r.
  generalize 1 as start.
  induction sorted_results as [|r l IH]; intros start; simpl;
    [repeat split|].
  destruct (IH (S start)) as [-> [-> ->]]. repeat split.
Qed.

Lemma length_enumerate {A} (l : list A) : forall start,
  length (enumerate start l) = length l.
Proof. induction l as [|x l IH]; intros s; simpl; [|rewrite IH]; reflexivity. Qed.

Lemma length_sorted_results_of f job_description resumes :
  length (sorted_results_of f job_description resumes)
  = length (survivors resumes).
Proof.
  unfold sorted_results_of.
  rewrite (Permutation_length (sorted_by_raw_score_perm _)).
  unfold make_results, scores_under.
  rewrite length_map, length_combine, !length_map, <- length_survivors.
  apply Nat.min_id.
Qed.

(** The documents and raw scores of the sorted results are those of the
    surviving files, each with the score of its own text. *)
Lemma sorted_results_of_perm f job_description resumes :
  Permutation
    (map (fun r => (Document r, Raw_Score r))
       (sorted_results_of f job_description resumes))
    (map (fun file => (name file, score_of f job_description file))
       (survivors resumes)).
Proof.
  unfold sorted_results_of.
  rewrite (Permutation_map _ (sorted_by_raw_score_perm _)).
  rewrite <- map_text_of_survivors.
  unfold make_results, scores_under, score_of.
  induction (survivors resumes) as [|file l IH]; simpl; [reflexivity|].
  now constructor.
Qed.

End Block.

(** ** The claims on the matching block *)

Section BlockClaims.
Context {SK : Sklearn}.

Lemma not_success_iff file :
  extraction_status file = Failed \/ extraction_status file = Empty
  <-> truthy (text_of file) = false.
Proof.
  unfold extraction_status, text_of.
  destruct (extract_text_body file) as [text|e]; simpl.
  - destruct (truthy text); split; trivial; try discriminate.
    + now intros [H|H].
    + now right.
  - split; trivial. now left.
Qed.

Lemma no_survivor_iff resumes :
  Forall (fun file => extraction_status file = Failed
                      \/ extraction_status file = Empty) resumes
  <-> surviving_texts resumes = [].
Proof.
  unfold surviving_texts.
  induction resumes as [|file resumes IH]; simpl.
  - split; trivial.
  - split.
    + intros H. inversion H as [|? ? Hf Hr]; subst.
      apply not_success_iff in Hf. rewrite Hf. now apply IH.
    + intros H. destruct (truthy (text_of file)) eqn:T; [discriminate|].
      constructor; [now apply not_success_iff | now apply IH].
Qed.

(** C1, as the code has it. Whenever the block reaches the display of the
    results, or no file survives extraction, the number of ranked entries
    plus the number of excluded files is the number of files submitted.
    The errors reported are one message for each file whose parse raised,
    in upload order, followed by the message that no valid text was
    extracted when no file survives: a file excluded for an empty text or
    for its extension is not reported, and no count or list of the
    excluded files is produced. *)
Theorem C1_ranked_plus_excluded_is_total (resumes : list UploadedFile)
    (job_description : str) (w : world) :
  let run := matching resumes job_description w in
  let out := emitted w (snd run) in
  fst run = Done tt \/ surviving_texts resumes = [] ->
  length (ranked_of out) + length (excluded resumes) = length resumes
  /\ error_messages out
     = parse_errors resumes
       ++ match surviving_texts resumes with
          | [] => [no_valid_text]
          | _ :: _ => []
          end.
Proof.
  intros run out Hrun.
  destruct (matching_outcome_events resumes job_description w) as [Ho He].
  fold run in Ho, He. fold out in He.
  destruct (views_extraction_events resumes) as [R1 [_ E1]].
  rewrite He. unfold ranked_of, error_messages in *.
  rewrite !flat_map_app, R1, E1. cbn [app].
  unfold after_extraction in *. cbv zeta in *.
  pose proof (length_survivors_excluded resumes) as Hlen.
  pose proof (length_survivors resumes) as Hs.
  destruct (surviving_texts resumes) as [|text texts].
  - simpl in *. split; [lia|reflexivity].
  - destruct (fit (stop_words (cached w)) (job_description :: text :: texts))
      as [f|e].
    + destruct (views_display_events
                  (sorted_results_of f job_description resumes))
        as [R2 [_ E2]].
      unfold ranked_of, error_messages in R2, E2.
      cbn [snd flat_map app]. rewrite R2, E2.
      rewrite length_map, length_enumerate, length_sorted_results_of.
      split; [exact Hlen|reflexivity].
    + destruct Hrun as [Hrun|Hrun]; [|discriminate].
      rewrite Ho in Hrun. discriminate.
Qed.

(** C4, as the code has it. When no file survives extraction, the block
    reports, after the errors of the files whose parse raised, the single
    error that no valid text was extracted, and halts: nothing is ranked,
    [fit_transform] is not called, and the cached vectorizer keeps the
    fitted state it had. *)
Theorem C4_no_survivor_halts_before_fit (resumes : list UploadedFile)
    (job_description : str) (w : world) :
  Forall (fun file => extraction_status file = Failed
                      \/ extraction_status file = Empty) resumes ->
  let run := matching resumes job_description w in
  let out := emitted w (snd run) in
  fst run = Stop
  /\ out = extraction_events resumes ++ [st_error no_valid_text]
  /\ ranked_of out = []
  /\ fit_calls out = []
  /\ error_messages out = parse_errors resumes ++ [no_valid_text]
  /\ fitted (cached (snd run)) = fitted (cached w).
Proof.
  intros Hnone run out. apply no_survivor_iff in Hnone.
  destruct (matching_outcome_events resumes job_description w) as [Ho He].
  fold run in Ho, He. fold out in He.
  pose proof (matching_cache resumes job_description w) as Hc.
  cbv zeta in Hc. fold run in Hc.
  unfold after_extraction in *. cbv zeta in *. rewrite Hnone in *.
  destruct (views_extraction_events resumes) as [R1 [F1 E1]].
  cbn [fst snd] in Ho, He. rewrite He.
  unfold ranked_of, fit_calls, error_messages in *.
  rewrite !flat_map_app, R1, F1, E1.
  repeat split; trivial.
  unfold cached at 1. now rewrite Hc.
Qed.

(** C7. When at least one file survives extraction, a run calls
    [fit_transform] exactly once, on the vectorizer with the English stop
    words and on the job description followed by the extracted texts that
    are not empty, in upload order; the job description is document 0.
    If the fit succeeds, the cache then holds the vectorizer fitted on this
    corpus, whatever it was fitted on before, and the ranked entries are
    the surviving files, each with the similarity of row 0 with its own
    row; if the fit raises, the block halts with nothing ranked. *)
Theorem C7_fit_once_on_query_then_texts (resumes : list UploadedFile)
    (job_description : str) (w : world) :
  wf w ->
  surviving_texts resumes <> [] ->
  let run := matching resumes job_description w in
  let out := emitted w (snd run) in
  let corpus := job_description :: filter truthy (map text_of resumes) in
  fit_calls out = [(lit "english", corpus)]
  /\ nth_error corpus 0 = Some job_description
  /\ match fit (lit "english") corpus with
     | Ok f =>
         fst run = Done tt
         /\ cache_resource (snd run)
            = Some {| stop_words := lit "english"; fitted := Some f |}
         /\ Permutation
              (map (fun '(_, document, _, raw) => (document, raw))
                 (ranked_of out))
              (map (fun file => (name file, score_of f job_description file))
                 (survivors resumes))
     | Raise e => fst run = Stop /\ ranked_of out = []
     end.
Proof.
  intros Hwf Hsome run out corpus.
  destruct (matching_outcome_events resumes job_description w) as [Ho He].
  fold run in Ho, He. fold out in He.
  pose proof (matching_cache resumes job_description w) as Hc.
  cbv zeta in Hc. fold run in Hc.
  unfold wf in Hwf. rewrite Hwf in *.
  unfold after_extraction in *. cbv zeta in *.
  change (filter truthy (map text_of resumes)) with (surviving_texts resumes)
    in corpus.
  destruct (views_extraction_events resumes) as [R1 [F1 E1]].
  unfold ranked_of, fit_calls in *. rewrite He, !flat_map_app, R1, F1.
  subst corpus.
  destruct (surviving_texts resumes) as [|text texts] eqn:Htexts;
    [contradiction|].
  destruct (fit (lit "english") (job_description :: text :: texts)) as [f|e].
  - destruct (views_display_events
                (sorted_results_of f job_description resumes))
      as [R2 [F2 _]].
    unfold ranked_of, fit_calls in R2, F2.
    cbn [snd flat_map app]. rewrite R2, F2.
    repeat split; trivial.
    rewrite map_map.
    rewrite <- (sorted_results_of_perm f job_description resumes).
    rewrite <- (map_snd_enumerate
                  (sorted_results_of f job_description resumes) 1) at 2.
    rewrite map_map. apply Permutation_refl'.
    apply map_ext. now intros [idx r].
  - simpl. repeat split; trivial.
Qed.

End BlockClaims.

(** ** What the returned string tells, and determinism *)

(** The text of a file before [strip], when the parsers answer. *)
Definition joined_text (file : UploadedFile) : result str :=
  if endswith (name file) (lit ".pdf") then
    (pages <-? pdfplumber_open file ;
     texts <-? comprehension
                 (fun page => x <-? page_extract_text page ; Ok (or_empty x))
                 pages ;
     Ok (join (lit " ") texts))%result
  else if endswith (name file) (lit ".docx") then
    (paragraphs <-? docx_Document file ;
     Ok (join (lit " ") paragraphs))%result
  else
    Ok [].

Lemma extract_text_body_joined file :
  extract_text_body file = rbind (joined_text file) (fun t => Ok (strip t)).
Proof.
  unfold extract_text_body, joined_text.
  destruct (endswith (name file) (lit ".pdf")).
  - destruct (pdfplumber_open file) as [pages|e]; simpl; [|reflexivity].
    now destruct (comprehension _ pages).
  - destruct (endswith (name file) (lit ".docx")); [|reflexivity].
    now destruct (docx_Document file).
Qed.

Section Determinism.
Context {SK : Sklearn}.

(** The documents and raw scores of the ranked output. *)
Definition ranked_pairs (evs : list event) : list (str * float) :=
  map (fun '(_, document, _, raw) => (document, raw)) (ranked_of evs).

(** C10. [extract_text] returns a string, and returns the empty string
    alike when the parse raises, when the name ends neither in [.pdf] nor
    in [.docx], and when the text of the document is empty or made of
    whitespace only. When the block reaches the display, the ranked output
    lists the files whose returned string is not empty, each once and each
    with the score of its own text. *)
Theorem C10_empty_string_hides_cause_ranked_are_nonempty
    (resumes : list UploadedFile) (job_description : str) (w : world) :
  (forall file w0,
     fst (extract_text file w0) = Done (text_of file)
     /\ (forall e, extract_text_body file = Raise e -> text_of file = [])
     /\ (endswith (name file) (lit ".pdf") = false ->
         endswith (name file) (lit ".docx") = false -> text_of file = [])
     /\ (forall t, joined_text file = Ok t -> forallb isspace t = true ->
         text_of file = []))
  /\ (let run := matching resumes job_description w in
      fst run = Done tt ->
      exists f,
        fit (stop_words (cached w))
          (job_description :: surviving_texts resumes) = Ok f
        /\ Permutation
             (ranked_pairs (emitted w (snd run)))
             (map (fun file => (name file, score_of f job_description file))
                (filter (fun file => truthy (text_of file)) resumes))).
Proof.
  split.
  - intros file w0. repeat split.
    + now rewrite extract_text_run.
    + intros e He. unfold text_of. now rewrite He.
    + intros Hpdf Hdocx. unfold text_of, extract_text_body.
      now rewrite Hpdf, Hdocx.
    + intros t Ht Hspace. unfold text_of.
      rewrite extract_text_body_joined, Ht. simpl.
      now apply strip_whitespace.
  - intros run Hdone.
    destruct (matching_outcome_events resumes job_description w) as [Ho He].
    fold run in Ho, He. rewrite Ho in Hdone.
    unfold after_extraction in *. cbv zeta in *.
    destruct (views_extraction_events resumes) as [R1 _].
    unfold ranked_pairs. unfold ranked_of in *.
    rewrite He, flat_map_app, R1. cbn [app].
    destruct (surviving_texts resumes) as [|text texts] eqn:Htexts;
      [discriminate|].
    destruct (fit (stop_words (cached w)) (job_description :: text :: texts))
      as [f|e]; [|discriminate].
    exists f. split; [reflexivity|].
    destruct (views_display_events
                (sorted_results_of f job_description resumes)) as [R2 _].
    unfold ranked_of in R2. cbn [snd flat_map app]. rewrite R2.
    rewrite map_map.
    rewrite <- (sorted_results_of_perm f job_description resumes).
    rewrite <- (map_snd_enumerate
                  (sorted_results_of f job_description resumes) 1) at 2.
    rewrite map_map. apply Permutation_refl'.
    apply map_ext. now intros [idx r].
Qed.

Lemma emitted_same w : emitted w w = [].
Proof. unfold emitted. apply skipn_all. Qed.

(** The outcome and the events of a run depend on the state of the process
    through the stop words of the cached vectorizer only. *)
Lemma script_outcome_events resumes job_description button w :
  let run := script resumes job_description button w in
  exists evs,
    (forall w', stop_words (cached w') = stop_words (cached w) ->
       fst (script resumes job_description button w') = fst run
       /\ emitted w' (snd (script resumes job_description button w')) = evs)
    /\ stop_words (cached (snd run)) = stop_words (cached w).
Proof.
  cbv zeta. unfold script.
  destruct (truthy_list resumes && truthy job_description && button).
  - eexists. split.
    + intros w' Hsw.
      destruct (matching_outcome_events resumes job_description w')
        as [Ho' He'].
      destruct (matching_outcome_events resumes job_description w)
        as [Ho He].
      rewrite Ho', Ho, He', Hsw. split; reflexivity.
    + unfold cached at 1. now rewrite matching_cache.
  - destruct (negb (truthy_list resumes) || negb (truthy job_description)).
    + eexists. split; [|reflexivity].
      intros w' _. rewrite !emit_run. cbn [fst snd].
      rewrite emitted_add_events. split; reflexivity.
    + exists []. split; [|reflexivity].
      intros w' _. unfold ret. cbn [fst snd]. now rewrite emitted_same.
Qed.

(** C3. Two runs on the same files, job description and button state give
    the same outcome and the same events (the same raw scores, the same
    ranks, the same rendered scores), from whatever states of the process
    they start: the vectorizer found in the cache, fitted or not, does not
    show in the result. In particular a run repeated in the same process
    repeats the events of the first. *)
Theorem C3_same_input_same_output (resumes : list UploadedFile)
    (job_description : str) (button : bool) (w1 w2 : world) :
  wf w1 -> wf w2 ->
  let run1 := script resumes job_description button w1 in
  let run2 := script resumes job_description button w2 in
  let again := script resumes job_description button (snd run1) in
  fst run1 = fst run2
  /\ emitted w1 (snd run1) = emitted w2 (snd run2)
  /\ wf (snd run1)
  /\ fst again = fst run1
  /\ emitted (snd run1) (snd again) = emitted w1 (snd run1).
Proof.
  intros Hwf1 Hwf2 run1 run2 again. unfold wf in *.
  destruct (script_outcome_events resumes job_description button w1)
    as [evs [Hall Hsw]].
  fold run1 in Hall, Hsw.
  destruct (Hall w1 eq_refl) as [_ E1].
  destruct (Hall w2 ltac:(congruence)) as [O2 E2].
  destruct (Hall (snd run1) Hsw) as [O3 E3].
  fold run1 in E1. fold run2 in O2, E2. fold again in O3, E3.
  repeat split; congruence.
Qed.

End Determinism.

(** ** The claims on sample batches *)

Definition mixed_batch : list UploadedFile := [good_pdf; blank_pdf].

Definition hopeless_batch : list UploadedFile := [broken_pdf; blank_pdf].

Definition full_batch : list UploadedFile :=
  [chef_pdf; broken_pdf; good_pdf; blank_pdf].

(** The state of a process that has already ranked another batch. *)
Definition used : world (SK := overlap_sklearn) :=
  snd (script [chef_pdf] (lit "cook") true fresh).

(** C1 fails as stated: a file with no extractable text is excluded from
    the ranking, and no error, warning or success message of the run names
    it. *)
Lemma C1_dropped_file_not_reported :
  let run := matching (SK := overlap_sklearn) mixed_batch sample_query fresh in
  let out := emitted fresh (snd run) in
  fst run = Done tt
  /\ excluded mixed_batch = [blank_pdf]
  /\ length (ranked_of out) = 1
  /\ error_messages out = []
  /\ ~ (forall file, In file (excluded mixed_batch) ->
                     reported out file = true).
Proof.
  cbv zeta. repeat split; try reflexivity.
  intros H. specialize (H blank_pdf (or_introl eq_refl)).
  vm_compute in H. discriminate.
Qed.

Lemma C1_ranked_plus_excluded_witness :
  let run := matching (SK := overlap_sklearn) mixed_batch sample_query fresh in
  let out := emitted fresh (snd run) in
  (fst run = Done tt \/ surviving_texts mixed_batch = [])
  /\ length (ranked_of out) + length (excluded mixed_batch) = 2.
Proof.
  cbv zeta. split; [left; reflexivity|].
  exact (proj1 (C1_ranked_plus_excluded_is_total (SK := overlap_sklearn)
                  mixed_batch sample_query fresh (or_introl eq_refl))).
Defined.

(** C4 fails as stated: when no file survives, the run reports the file
    whose parse raised, and no error, warning or success message names
    the file with no extractable text. *)
Lemma C4_no_failure_list :
  let run :=
    matching (SK := overlap_sklearn) hopeless_batch sample_query fresh in
  let out := emitted fresh (snd run) in
  fst run = Stop
  /\ survivors hopeless_batch = []
  /\ error_messages out
     = [lit "Error processing broken.pdf: No /Root object! - Is this really a PDF?";
        no_valid_text]
  /\ reported out broken_pdf = true
  /\ ~ (forall file, In file hopeless_batch -> reported out file = true).
Proof.
  cbv zeta. repeat split; try reflexivity.
  intros H. specialize (H blank_pdf (or_intror (or_introl eq_refl))).
  vm_compute in H. discriminate.
Qed.

Lemma C4_no_survivor_witness :
  let run :=
    matching (SK := overlap_sklearn) hopeless_batch sample_query fresh in
  let out := emitted fresh (snd run) in
  Forall (fun file => extraction_status file = Failed
                      \/ extraction_status file = Empty) hopeless_batch
  /\ fst run = Stop /\ ranked_of out = [] /\ fit_calls out = [].
Proof.
  cbv zeta.
  assert (H : Forall (fun file => extraction_status file = Failed
                                  \/ extraction_status file = Empty)
                hopeless_batch).
  { constructor; [left; reflexivity|].
    constructor; [right; reflexivity|constructor]. }
  split; [exact H|].
  destruct (C4_no_survivor_halts_before_fit (SK := overlap_sklearn)
              hopeless_batch sample_query fresh H)
    as [Hstop [_ [Hranked [Hfit _]]]].
  repeat split; assumption.
Defined.

Lemma C7_fit_once_witness :
  let run := matching (SK := overlap_sklearn) full_batch sample_query fresh in
  wf (SK := overlap_sklearn) fresh
  /\ surviving_texts full_batch <> []
  /\ fit_calls (emitted fresh (snd run))
     = [(lit "english",
         [sample_query; lit "chef with cooking skills";
          lit "python developer   rust"])].
Proof.
  cbv zeta.
  assert (Hs : surviving_texts full_batch <> []) by discriminate.
  split; [reflexivity|]. split; [exact Hs|].
  exact (proj1 (C7_fit_once_on_query_then_texts (SK := overlap_sklearn)
                  full_batch sample_query fresh eq_refl Hs)).
Defined.

Lemma C10_ranked_are_nonempty_witness :
  let run := matching (SK := overlap_sklearn) full_batch sample_query fresh in
  fst run = Done tt
  /\ map text_of full_batch
     = [lit "chef with cooking skills"; []; lit "python developer   rust"; []]
  /\ exists f,
       Permutation (ranked_pairs (emitted fresh (snd run)))
         [(lit "chef.pdf", score_of (SK := overlap_sklearn) f sample_query chef_pdf);
          (lit "good.pdf", score_of (SK := overlap_sklearn) f sample_query good_pdf)].
Proof.
  cbv zeta. split; [reflexivity|]. split; [reflexivity|].
  destruct (proj2 (C10_empty_string_hides_cause_ranked_are_nonempty
                     (SK := overlap_sklearn) full_batch sample_query fresh)
              eq_refl) as [f [_ Hperm]].
  exists f. exact Hperm.
Defined.

Lemma C3_same_output_witness :
  let run1 := script (SK := overlap_sklearn) full_batch sample_query true fresh in
  let run2 := script (SK := overlap_sklearn) full_batch sample_query true used in
  wf (SK := overlap_sklearn) fresh /\ wf used
  /\ cache_resource used <> cache_resource fresh
  /\ fst run1 = fst run2
  /\ emitted fresh (snd run1) = emitted used (snd run2).
Proof.
  cbv zeta.
  destruct (C3_same_input_same_output (SK := overlap_sklearn)
              full_batch sample_query true fresh used eq_refl eq_refl)
    as [Ho [He _]].
  repeat split; try assumption. discriminate.
Defined.

(** Two scores whose rendered strings are in the other order as strings
    ("9.00%" is above "10.00%"): the sort puts the greater raw score
    first. *)
Definition f0_09 : float := Eval cbv in div (of_Z 9) (of_Z 100).
Definition f0_1 : float := Eval cbv in div (of_Z 1) (of_Z 10).

Lemma C9_sort_on_raw_witness :
  let names := [lit "a.pdf"; lit "b.pdf"] in
  let scores := [f0_09; f0_1] in
  Forall (fun score => is_nan score = false) scores
  /\ map Match_Score (sorted_by_raw_score (make_results names scores))
     = [lit "10.00%"; lit "9.00%"]
  /\ StronglySorted score_ge (sorted_by_raw_score (make_results names scores)).
Proof.
  cbv zeta.
  assert (Hn : Forall (fun score => is_nan score = false) [f0_09; f0_1])
    by (repeat constructor).
  split; [exact Hn|]. split; [reflexivity|].
  exact (proj2 (proj2 (C9_match_score_rendered_sort_on_raw
                         [lit "a.pdf"; lit "b.pdf"] [f0_09; f0_1])) Hn).
Defined.

(** ** Examples *)

Example format_2f_ties_to_even :
  format_2f (div (of_Z 1) (of_Z 8)) = lit "0.12"
  /\ format_2f (div (of_Z 3) (of_Z 8)) = lit "0.38".
Proof. split; reflexivity. Qed.

Example match_score_examples :
  match_score (div (of_Z 1) (of_Z 3)) = lit "33.33%"
  /\ match_score (of_Z 1) = lit "100.00%"
  /\ match_score (S754_zero false) = lit "0.00%"
  /\ match_score f0_3 = lit "30.00%".
Proof. repeat split; reflexivity. Qed.

Example strip_example :
  strip ([32; 9]%N ++ lit "a b" ++ [10; 160]%N) = lit "a b".
Proof. reflexivity. Qed.

Example score_color_examples :
  score_color (div (of_Z 3) (of_Z 4)) = lit "green"
  /\ score_color f0_5 = lit "orange"
  /\ score_color f0_3 = lit "red".
Proof. repeat split; reflexivity. Qed.

(** The second file has the better score and comes first. *)
Example full_batch_ranking :
  map (fun '(idx, document, score, _) => (idx, document, score))
    (ranked_of
       (emitted fresh
          (snd (matching (SK := overlap_sklearn) full_batch sample_query
                  fresh))))
  = [(1, lit "good.pdf", lit "78.95%"); (2, lit "chef.pdf", lit "71.43%")].
Proof. reflexivity. Qed.

(** Two files with the same text: the same score, ranks 1 and 2, in upload
    order. *)
Example identical_texts_keep_order :
  map (fun '(idx, document, score, _) => (idx, document, score))
    (ranked_of
       (emitted fresh
          (snd (matching (SK := overlap_sklearn)
                  [pdf_file (lit "first.pdf") [Some (lit "python")];
                   pdf_file (lit "second.pdf") [Some (lit "python")]]
                  sample_query fresh))))
  = [(1, lit "first.pdf", lit "100.00%"); (2, lit "second.pdf", lit "100.00%")].
Proof. reflexivity. Qed.

(** A name in upper case is not recognised: the file is dropped. *)
Example upper_case_extension :
  text_of (pdf_file (lit "CV.PDF") [Some (lit "python")]) = [].
Proof. reflexivity. Qed.

(** * Further properties of the script *)

(** ** More of [extract_text] *)

(** A DOCX file with the given paragraphs. *)
Definition docx_file (file_name : str) (paragraphs : list str) : UploadedFile :=
  {| name := file_name;
     pdfplumber_open := Raise (lit "No /Root object! - Is this really a PDF?");
     docx_Document := Ok paragraphs |}.

(** A PDF whose pages answer as given. *)
Definition pdf_with_pages (file_name : str) (pages : list (result (option str)))
    : UploadedFile :=
  {| name := file_name;
     pdfplumber_open :=
       Ok (map (fun r => {| page_extract_text := r |}) pages);
     docx_Document := Raise (lit "File is not a zip file") |}.

Definition letter_docx : UploadedFile :=
  docx_file (lit "letter.docx")
    [lit " Dear team,"; []; lit "I write python. "].

Definition torn_pdf : UploadedFile :=
  pdf_with_pages (lit "torn.pdf")
    [Ok (Some (lit "python developer"));
     Raise (lit "bad xref");
     Raise (lit "never reached")].

(** The two suffixes exclude each other. *)
Lemma endswith_docx_not_pdf (s : str) :
  endswith s (lit ".docx") = true -> endswith s (lit ".pdf") = false.
Proof.
  unfold endswith.
  change (rev (lit ".docx")) with [120; 99; 111; 100; 46]%N.
  change (rev (lit ".pdf")) with [102; 100; 112; 46]%N.
  destruct (rev s) as [|c t]; simpl; [discriminate|].
  destruct (N.eqb_spec c 120) as [->|]; [reflexivity|discriminate].
Qed.

Lemma comprehension_first_raise {A B} (f : A -> result B)
    (before : list A) (a : A) (after : list A) (e : exn) :
  Forall (fun x => exists b, f x = Ok b) before ->
  f a = Raise e ->
  comprehension f (before ++ a :: after) = Raise e.
Proof.
  induction 1 as [|x before [b Hb] _ IH]; intros Ha; simpl.
  - now rewrite Ha.
  - rewrite Hb. simpl. now rewrite IH.
Qed.

Lemma lstrip_fixed (t : str) :
  (forall c, hd_error t = Some c -> isspace c = false) -> lstrip t = t.
Proof.
  destruct t as [|c t]; [reflexivity|].
  intros H. simpl. now rewrite (H c eq_refl).
Qed.

Lemma strip_idempotent (s : str) : strip (strip s) = strip s.
Proof.
  destruct (strip_spec s) as [_ [_ [_ [_ [_ [Hhd Hlast]]]]]].
  set (u := strip s) in *. unfold strip at 1.
  rewrite (lstrip_fixed u Hhd). unfold rstrip.
  rewrite (lstrip_fixed (rev u) Hlast). apply rev_involutive.
Qed.

Lemma text_of_stripped (file : UploadedFile) :
  strip (text_of file) = text_of file.
Proof.
  unfold text_of. rewrite extract_text_body_joined.
  destruct (joined_text file) as [t|e]; simpl; [|reflexivity].
  apply strip_idempotent.
Qed.

Section MoreExtraction.
Context {SK : Sklearn}.

(** X1. On a file named [*.docx] that python-docx opens, [extract_text]
    returns, with no error reported and whatever pdfplumber would answer,
    the texts of the paragraphs joined by one space, minus the whitespace
    at both ends. *)
Theorem X1_docx_paragraphs_joined_and_stripped (file : UploadedFile)
    (paragraphs : list str) (w : world) :
  endswith (name file) (lit ".docx") = true ->
  docx_Document file = Ok paragraphs ->
  let joined := join (lit " ") paragraphs in
  extract_text file w = (Done (strip joined), w)
  /\ exists pre post,
       joined = pre ++ strip joined ++ post
       /\ forallb isspace pre = true /\ forallb isspace post = true
       /\ (forall c, hd_error (strip joined) = Some c -> isspace c = false)
       /\ (forall c, hd_error (rev (strip joined)) = Some c ->
                     isspace c = false).
Proof.
  intros Hname Hopen joined. split.
  - rewrite extract_text_run. unfold text_of, errors_of, extract_text_body.
    rewrite (endswith_docx_not_pdf _ Hname), Hname, Hopen. cbn [rbind].
    now rewrite add_events_nil.
  - apply strip_spec.
Qed.

(** X2. On a file named [*.pdf] that opens, if a page raises and the pages
    before it answer, [extract_text] returns the empty string and reports
    the exception of that page: the text of the pages before it is lost,
    and the pages after it are not asked. *)
Theorem X2_first_failing_page_fails_the_file (file : UploadedFile)
    (before after : list Page) (page : Page) (e : exn) (w : world) :
  endswith (name file) (lit ".pdf") = true ->
  pdfplumber_open file = Ok (before ++ page :: after) ->
  Forall (fun p => exists x, page_extract_text p = Ok x) before ->
  page_extract_text page = Raise e ->
  extract_text file w
  = (Done [], add_events w [st_error (error_processing file e)])
  /\ extraction_status file = Failed.
Proof.
  intros Hname Hopen Hbefore Hpage.
  assert (Hbody : extract_text_body file = Raise e).
  { unfold extract_text_body. rewrite Hname, Hopen. cbn [rbind].
    rewrite (comprehension_first_raise _ before page after e);
      [reflexivity| |now rewrite Hpage].
    apply Forall_forall. intros p Hp. rewrite Forall_forall in Hbefore.
    destruct (Hbefore p Hp) as [x Hx]. exists (or_empty x). now rewrite Hx. }
  split.
  - rewrite extract_text_run. unfold text_of, errors_of. now rewrite Hbody.
  - unfold extraction_status. now rewrite Hbody.
Qed.

(** X3. Whatever the file, the string returned by [extract_text] has no
    whitespace at either end, and stripping it again changes nothing. So
    every text kept by the loop, and handed to the vectorizer, is not
    empty and starts and ends with a character that is not whitespace. *)
Theorem X3_returned_text_is_stripped (resumes : list UploadedFile) :
  (forall file w,
     fst (extract_text file w) = Done (text_of file)
     /\ strip (text_of file) = text_of file
     /\ (forall c, hd_error (text_of file) = Some c -> isspace c = false)
     /\ (forall c, hd_error (rev (text_of file)) = Some c ->
                   isspace c = false))
  /\ Forall (fun text =>
               exists first middle,
                 text = first :: middle
                 /\ isspace first = false
                 /\ isspace (last text first) = false)
            (surviving_texts resumes).
Proof.
  assert (Hends : forall file,
    (forall c, hd_error (text_of file) = Some c -> isspace c = false)
    /\ (forall c, hd_error (rev (text_of file)) = Some c ->
                  isspace c = false)).
  { intros file. rewrite <- (text_of_stripped file).
    destruct (strip_spec (text_of file)) as [_ [_ [_ [_ [_ H]]]]]. exact H. }
  split.
  - intros file w. rewrite extract_text_run. repeat split.
    + apply text_of_stripped.
    + apply (Hends file).
    + apply (Hends file).
  - unfold surviving_texts. apply Forall_forall. intros text Hin.
    apply filter_In in Hin. destruct Hin as [Hin Htruthy].
    apply in_map_iff in Hin. destruct Hin as [file [<- _]].
    destruct (Hends file) as [Hhd Hlast].
    destruct (text_of file) as [|first middle] eqn:E; [discriminate|].
    exists first, middle. repeat split.
    + now apply Hhd.
    + apply Hlast.
      destruct (exists_last (l := first :: middle) ltac:(discriminate))
        as [l' [z Hz]].
      rewrite Hz, last_last, rev_app_distr. reflexivity.
Qed.

End MoreExtraction.

Lemma X1_docx_witness :
  endswith (name letter_docx) (lit ".docx") = true
  /\ extract_text (SK := overlap_sklearn) letter_docx fresh
     = (Done (lit "Dear team,  I write python."), fresh).
Proof.
  split; [reflexivity|].
  exact (proj1 (X1_docx_paragraphs_joined_and_stripped
                  (SK := overlap_sklearn) letter_docx
                  [lit " Dear team,"; []; lit "I write python. "] fresh
                  eq_refl eq_refl)).
Defined.

Lemma X2_first_failing_page_witness :
  endswith (name torn_pdf) (lit ".pdf") = true
  /\ extract_text (SK := overlap_sklearn) torn_pdf fresh
     = (Done [],
        add_events fresh [st_error (lit "Error processing torn.pdf: bad xref")]).
Proof.
  split; [reflexivity|].
  refine (proj1 (X2_first_failing_page_fails_the_file
                   (SK := overlap_sklearn) torn_pdf
                   [{| page_extract_text := Ok (Some (lit "python developer")) |}]
                   [{| page_extract_text := Raise (lit "never reached") |}]
                   {| page_extract_text := Raise (lit "bad xref") |}
                   (lit "bad xref") fresh eq_refl eq_refl _ eq_refl)).
  repeat constructor. eexists. reflexivity.
Defined.

(** ** More readings of a trace *)

(** The updates of the progress bar, as (numerator, denominator, text). *)
Definition progress_of (evs : list event) : list (nat * nat * str) :=
  flat_map (fun ev =>
              match ev with
              | st_progress num den text => [(num, den, text)]
              | _ => []
              end) evs.

Definition successes (evs : list event) : list str :=
  flat_map (fun ev =>
              match ev with
              | st_success msg => [msg]
              | _ => []
              end) evs.

Definition warnings (evs : list event) : list str :=
  flat_map (fun ev =>
              match ev with
              | st_warning msg => [msg]
              | _ => []
              end) evs.

(** The rows offered for download. *)
Definition downloads (evs : list event) : list (list (nat * str * str)) :=
  flat_map (fun ev =>
              match ev with
              | st_download_button rows => [rows]
              | _ => []
              end) evs.

(** The colours of the cards shown, in order. *)
Definition colors_of (evs : list event) : list str :=
  flat_map (fun ev =>
              match ev with
              | st_markdown _ _ _ _ color => [color]
              | _ => []
              end) evs.

(** The place of a colour on the scale red, orange, green. *)
Definition color_rank (color : str) : nat :=
  if str_eqb color (lit "green") then 2
  else if str_eqb color (lit "orange") then 1
  else 0.

(** A reading that ignores progress updates and errors reads nothing in
    the events of the extraction loop. *)
Lemma flat_map_loop_events_nil {X} (pick : event -> list X) rest :
  (forall num den text, pick (st_progress num den text) = []) ->
  (forall msg, pick (st_error msg) = []) ->
  forall len_resumes i, flat_map pick (loop_events len_resumes i rest) = [].
Proof.
  intros Hp He. induction rest as [|r rest IH]; intros n i; simpl;
    [reflexivity|].
  rewrite Hp, flat_map_app, IH, app_nil_r. simpl.
  unfold errors_of. destruct (extract_text_body r); simpl;
    [reflexivity|]. now rewrite He, app_nil_r.
Qed.

(** A reading that ignores cards reads nothing in the cards. *)
Lemma flat_map_cards_nil {X} (pick : event -> list X) cards :
  (forall idx document score raw color,
     pick (st_markdown idx document score raw color) = []) ->
  flat_map pick (map card_event cards) = [].
Proof.
  intros Hc. induction cards as [|[idx r] cards IH]; simpl; [reflexivity|].
  now rewrite Hc, IH.
Qed.

Lemma in_enumerate {A} (l : list A) : forall start k x,
  In (k, x) (enumerate start l) -> start <= k < start + length l.
Proof.
  induction l as [|y l IH]; intros s k x Hin; [contradiction|].
  destruct Hin as [[= <- <-]|Hin]; simpl; [lia|].
  apply IH in Hin. lia.
Qed.

Lemma progress_of_loop rest : forall len_resumes i,
  progress_of (loop_events len_resumes i rest)
  = map (fun '(k, file) => (k, len_resumes, processing file))
        (enumerate (i + 1) rest).
Proof.
  unfold progress_of.
  induction rest as [|r rest IH]; intros n i; simpl; [reflexivity|].
  rewrite flat_map_app, IH. f_equal.
  replace (S i + 1) with (S (i + 1)) by lia.
  unfold errors_of. destruct (extract_text_body r); reflexivity.
Qed.

Lemma survivors_idempotent resumes :
  survivors (survivors resumes) = survivors resumes
  /\ surviving_texts (survivors resumes) = surviving_texts resumes.
Proof.
  split.
  - unfold survivors. induction resumes as [|file resumes IH]; simpl;
      [reflexivity|].
    destruct (truthy (text_of file)) eqn:T; simpl; [|exact IH].
    now rewrite T, IH.
  - rewrite <- !map_text_of_survivors.
    unfold survivors. induction resumes as [|file resumes IH]; simpl;
      [reflexivity|].
    destruct (truthy (text_of file)) eqn:T; simpl; [|exact IH].
    now rewrite T; simpl; rewrite IH.
Qed.

Lemma survivor_has_no_error file :
  truthy (text_of file) = true ->
  match extract_text_body file with
  | Raise e => [error_processing file e]
  | Ok _ => []
  end = [].
Proof.
  unfold text_of. now destruct (extract_text_body file).
Qed.

Lemma parse_errors_split resumes :
  parse_errors resumes = parse_errors (excluded resumes)
  /\ parse_errors (survivors resumes) = [].
Proof.
  unfold parse_errors, excluded, survivors.
  induction resumes as [|file resumes [IH1 IH2]]; [split; reflexivity|].
  cbn [flat_map filter].
  destruct (truthy (text_of file)) eqn:T; cbn [negb flat_map].
  - rewrite (survivor_has_no_error file T). now split.
  - split; [now rewrite IH1 | exact IH2].
Qed.

Lemma length_parse_errors resumes :
  length (parse_errors resumes) <= length resumes.
Proof.
  unfold parse_errors. induction resumes as [|file resumes IH]; simpl;
    [lia|].
  rewrite length_app. destruct (extract_text_body file); simpl; lia.
Qed.

Lemma more_views_extraction_events resumes :
  successes (extraction_events resumes) = []
  /\ downloads (extraction_events resumes) = []
  /\ warnings (extraction_events resumes) = []
  /\ colors_of (extraction_events resumes) = []
  /\ progress_of (extraction_events resumes)
     = (0, 1, [])
       :: map (fun '(k, file) => (k, length resumes, processing file))
              (enumerate 1 resumes).
Proof.
  unfold extraction_events, successes, downloads, warnings, colors_of.
  cbn [flat_map app].
  rewrite !flat_map_loop_events_nil by reflexivity.
  repeat split.
  unfold progress_of. cbn [flat_map app]. f_equal.
  apply (progress_of_loop resumes (length resumes) 0).
Qed.

Lemma more_views_display_events sorted_results :
  successes (display_events sorted_results)
    = [analysis_complete (length sorted_results)]
  /\ downloads (display_events sorted_results)
     = [download_rows sorted_results]
  /\ warnings (display_events sorted_results) = []
  /\ progress_of (display_events sorted_results) = []
  /\ colors_of (display_events sorted_results)
     = map (fun r => score_color (Raw_Score r)) sorted_results.
Proof.
  unfold display_events, successes, downloads, warnings, progress_of,
    colors_of.
  cbn [flat_map app]. rewrite !flat_map_app. cbn [flat_map app].
  rewrite !flat_map_cards_nil by reflexivity.
  repeat split. rewrite app_nil_r.
  generalize 1 as start.
  induction sorted_results as [|r l IH]; intros start; simpl;
    [reflexivity|]. now rewrite IH.
Qed.

Lemma enumerate_covers {A} (l : list A) (x : A) :
  In x l -> forall start, exists k, In (k, x) (enumerate start l).
Proof.
  induction l as [|y l IH]; [contradiction|]. intros Hin start.
  destruct Hin as [->|Hin].
  - exists start. now left.
  - destruct (IH Hin (S start)) as [k Hk]. exists k. now right.
Qed.

Lemma enumerate_snoc {A} (front : list A) (x : A) : forall start,
  enumerate start (front ++ [x])
  = enumerate start front ++ [(start + length front, x)].
Proof.
  induction front as [|y front IH]; intros start; simpl.
  - now rewrite Nat.add_0_r.
  - rewrite IH.
    now replace (S start + length front) with (start + S (length front))
      by lia.
Qed.

Section MoreBlock.
Context {SK : Sklearn}.

(** X4. In a run of the block every error about a single file comes from a
    file that is excluded from the ranking: the errors reported are those
    of the excluded files, in upload order, followed by at most one error
    about the batch; a file that is ranked has no error reported, and
    there are no more errors about files than files excluded. *)
Theorem X4_errors_come_from_excluded_files (resumes : list UploadedFile)
    (job_description : str) (w : world) :
  let out := emitted w (snd (matching resumes job_description w)) in
  (exists batch_errors,
     error_messages out = parse_errors (excluded resumes) ++ batch_errors
     /\ length batch_errors <= 1)
  /\ parse_errors (survivors resumes) = []
  /\ length (parse_errors resumes) <= length (excluded resumes).
Proof.
  intros out.
  destruct (parse_errors_split resumes) as [Hex Hsurv].
  repeat split; trivial.
  - destruct (matching_outcome_events resumes job_description w) as [_ He].
    cbv zeta in He. fold out in He.
    destruct (views_extraction_events resumes) as [_ [_ E1]].
    unfold error_messages in *. rewrite He, flat_map_app, E1, Hex.
    eexists. split; [reflexivity|].
    unfold after_extraction. cbv zeta.
    destruct (surviving_texts resumes) as [|text texts]; [simpl; lia|].
    destruct (fit _ _) as [f|e]; [|simpl; lia].
    destruct (views_display_events
                (sorted_results_of f job_description resumes))
      as [_ [_ E2]].
    unfold error_messages in E2. cbn [snd flat_map app]. rewrite E2.
    simpl. lia.
  - rewrite Hex. apply length_parse_errors.
Qed.

(** X5. The extraction loop keeps its two lists aligned. Started with
    files and their non-empty texts, it ends normally with the files it
    was given followed by the files of the batch whose text is not empty,
    in upload order, and with the text of each at the same position; it
    leaves the cache as it was. *)
Theorem X5_loop_keeps_files_and_texts_aligned (rest : list UploadedFile)
    (len_resumes i : nat) (valid_resumes : list UploadedFile)
    (resume_texts : list str) (w : world) :
  map text_of valid_resumes = resume_texts ->
  Forall (fun text => truthy text = true) resume_texts ->
  exists valid_resumes' resume_texts' w',
    extraction_loop len_resumes i rest valid_resumes resume_texts w
    = (Done (valid_resumes', resume_texts'), w')
    /\ map text_of valid_resumes' = resume_texts'
    /\ length valid_resumes' = length resume_texts'
    /\ Forall (fun text => truthy text = true) resume_texts'
    /\ valid_resumes'
       = valid_resumes ++ filter (fun file => truthy (text_of file)) rest
    /\ cache_resource w' = cache_resource w.
Proof.
  intros Halign Htruthy.
  do 3 eexists. rewrite extraction_loop_run.
  split; [reflexivity|].
  assert (E : map text_of (valid_resumes ++ survivors rest)
              = resume_texts ++ surviving_texts rest)
    by (now rewrite map_app, map_text_of_survivors, Halign).
  repeat split; trivial.
  - rewrite <- E. now rewrite length_map.
  - apply Forall_app. split; [exact Htruthy|].
    unfold surviving_texts. apply Forall_forall. intros t Ht.
    apply filter_In in Ht. tauto.
Qed.

(** X6. The progress bar of a run is set to 0, then, for the file at
    position [k] (from 1) of a batch of [n] files, to [k/n] with the name
    of the file in its text, in upload order. Every update is a fraction
    with a positive denominator and a value of at most 1, and the last one
    is [n/n]. *)
Theorem X6_progress_goes_through_the_batch (resumes : list UploadedFile)
    (job_description : str) (w : world) :
  let out := emitted w (snd (matching resumes job_description w)) in
  progress_of out
  = (0, 1, [])
    :: map (fun '(k, file) => (k, length resumes, processing file))
           (enumerate 1 resumes)
  /\ Forall (fun '(num, den, _) => 0 < den /\ num <= den) (progress_of out)
  /\ (forall file, In file resumes ->
        exists k, In (k, length resumes, processing file) (progress_of out))
  /\ (resumes <> [] ->
      exists text,
        last (progress_of out) (0, 1, [])
        = (length resumes, length resumes, text)).
Proof.
  intros out.
  assert (E : progress_of out
              = (0, 1, [])
                :: map (fun '(k, file) =>
                          (k, length resumes, processing file))
                       (enumerate 1 resumes)).
  { destruct (matching_outcome_events resumes job_description w) as [_ He].
    cbv zeta in He. fold out in He.
    destruct (more_views_extraction_events resumes) as [_ [_ [_ [_ P1]]]].
    unfold progress_of in *. rewrite He, flat_map_app, P1.
    unfold after_extraction. cbv zeta.
    destruct (surviving_texts resumes) as [|text texts];
      [now rewrite app_nil_r|].
    destruct (fit _ _) as [f|e]; [|now rewrite app_nil_r].
    destruct (more_views_display_events
                (sorted_results_of f job_description resumes))
      as [_ [_ [_ [P2 _]]]].
    unfold progress_of in P2. cbn [snd flat_map app]. rewrite P2.
    now rewrite app_nil_r. }
  rewrite E. repeat split.
  - constructor; [lia|].
    apply Forall_forall. intros [[num den] text] Hin.
    apply in_map_iff in Hin. destruct Hin as [[k file] [[= <- <- <-] Hin]].
    apply in_enumerate in Hin. lia.
  - intros file Hin.
    destruct (enumerate_covers resumes file Hin 1) as [k Hk]. exists k.
    right. apply in_map_iff. exists (k, file). split; [reflexivity|exact Hk].
  - intros Hne.
    destruct (exists_last Hne) as [front [file Hfront]].
    exists (processing file).
    assert (Hn : length resumes = 1 + length front)
      by (rewrite Hfront, length_app; simpl; lia).
    set (n := length resumes) in *.
    rewrite Hfront, enumerate_snoc, map_app. simpl map.
    rewrite app_comm_cons, last_last. now rewrite Hn.
Qed.

End MoreBlock.

(** ** Colours *)

Lemma leb_not_ltb (a b : float) : SFleb b a = true -> ltb a b = false.
Proof.
  unfold ltb, SFltb, SFleb, SFcompare.
  change (Pos.compare_cont Eq) with Pos.compare.
  destruct a as [[]|[]| |[] m1 e1], b as [[]|[]| |[] m2 e2];
    try reflexivity; try discriminate;
    rewrite (Z.compare_antisym e1 e2), (Pos.compare_antisym m1 m2);
    destruct (e1 ?= e2)%Z; simpl; try reflexivity; try discriminate;
    destruct (m1 ?= m2)%positive; simpl; try reflexivity; discriminate.
Qed.

(** A score at least as great passes every threshold the other passes. *)
Lemma gtb_monotone (threshold a b : float) :
  is_nan a = false -> SFleb b a = true ->
  gtb b threshold = true -> gtb a threshold = true.
Proof.
  unfold gtb. intros Ha Hle Hb.
  destruct (ltb_cotrans threshold b a Ha Hb) as [H|H]; [exact H|].
  rewrite (leb_not_ltb a b Hle) in H. discriminate.
Qed.

Lemma color_rank_monotone (a b : float) :
  is_nan a = false -> SFleb b a = true ->
  color_rank (score_color b) <= color_rank (score_color a).
Proof.
  intros Ha Hle. unfold score_color.
  destruct (gtb b f0_5) eqn:B5.
  - now rewrite (gtb_monotone f0_5 a b Ha Hle B5).
  - destruct (gtb b f0_3) eqn:B3.
    + rewrite (gtb_monotone f0_3 a b Ha Hle B3).
      destruct (gtb a f0_5); vm_compute; lia.
    + destruct (gtb a f0_5); [vm_compute; lia|].
      destruct (gtb a f0_3); vm_compute; lia.
Qed.

(** X10. The colour of a card is green above 0.5, orange above 0.3 and
    red otherwise, and the colours follow the ranking: in the cards of
    results whose scores are numbers, no card is greener than a card
    ranked before it. *)
Theorem X10_colours_follow_the_ranking (results : list Result) :
  no_nan results ->
  let sorted_results := sorted_by_raw_score results in
  colors_of (display_events sorted_results)
  = map (fun r => score_color (Raw_Score r)) sorted_results
  /\ StronglySorted
       (fun earlier later =>
          color_rank (score_color (Raw_Score later))
          <= color_rank (score_color (Raw_Score earlier)))
       sorted_results
  /\ (forall raw,
        (color_rank (score_color raw) = 2 <-> gtb raw f0_5 = true)
        /\ (color_rank (score_color raw) = 1
            <-> gtb raw f0_5 = false /\ gtb raw f0_3 = true)).
Proof.
  intros Hn sorted_results. split; [|split].
  - apply more_views_display_events.
  - pose proof (sorted_by_raw_score_descending results Hn) as Hs.
    pose proof (no_nan_sorted results Hn) as Hn'. fold sorted_results in Hs, Hn'.
    induction Hs as [|r l Hs IH Hr]; constructor.
    + apply IH. now inversion Hn'.
    + inversion Hn' as [|? ? Nr Nl]; subst.
      rewrite Forall_forall in *. intros later Hl.
      apply color_rank_monotone; [exact Nr|]. apply (Hr later Hl).
  - intros raw. unfold score_color.
    destruct (gtb raw f0_5); [vm_compute; split; split; intros H;
      try reflexivity; try discriminate; now destruct H|].
    destruct (gtb raw f0_3); vm_compute; split; split; intros H;
      try reflexivity; try discriminate; try (now destruct H);
      now split.
Qed.

Lemma X10_colours_witness :
  no_nan sample_results
  /\ map (fun r => score_color (Raw_Score r))
       (sorted_by_raw_score sample_results)
     = [lit "orange"; lit "red"; lit "red"].
Proof.
  assert (Hn : no_nan sample_results) by (repeat constructor).
  split; [exact Hn|].
  rewrite <- (proj1 (X10_colours_follow_the_ranking sample_results Hn)).
  reflexivity.
Defined.

(** ** The ranking is determined by the scores and the order of ties *)

(** X13. Two lists of results with numbers as scores that agree, for each
    score, on the results having that score and on their order, are
    ranked alike; in particular ranking a ranked list changes nothing. *)
Theorem X13_ranking_determined_by_scores_and_ties
    (results results' : list Result) :
  no_nan results -> no_nan results' ->
  (forall score, is_nan score = false ->
     with_score score results = with_score score results') ->
  sorted_by_raw_score results = sorted_by_raw_score results'
  /\ sorted_by_raw_score (sorted_by_raw_score results)
     = sorted_by_raw_score results.
Proof.
  intros Hn Hn' Hsame.
  assert (Hdesc : forall l, no_nan l ->
            StronglySorted (descending Raw_Score ltb) (sorted_by_raw_score l)).
  { intros l Hl.
    apply (sorted_reverse_sorted Raw_Score ltb (fun k => is_nan k = false));
      trivial.
    - intros a b _ _. apply ltb_asym.
    - intros a b c _ _ Hc. now apply ltb_cotrans. }
  assert (Htied : forall l k, no_nan l -> is_nan k = false ->
            filter (fun r => tied ltb k (Raw_Score r)) l = with_score k l).
  { intros l k Hl Hk. unfold with_score. apply filter_ext_in.
    intros r Hr. apply tied_eqb; trivial.
    unfold no_nan in Hl. rewrite Forall_forall in Hl. now apply Hl. }
  split.
  - apply sorted_by_raw_score_unique; trivial.
    + now apply no_nan_sorted.
    + now apply Hdesc.
    + intros k Hk.
      rewrite (Htied _ k (no_nan_sorted _ Hn) Hk), (Htied _ k Hn' Hk).
      rewrite sorted_by_raw_score_stable by trivial. now apply Hsame.
  - symmetry. apply sorted_by_raw_score_unique; trivial.
    + now apply no_nan_sorted.
    + now apply no_nan_sorted.
    + now apply Hdesc.
Qed.

Lemma X13_ranking_witness :
  no_nan sample_results
  /\ sorted_by_raw_score (sorted_by_raw_score sample_results)
     = sorted_by_raw_score sample_results.
Proof.
  assert (Hn : no_nan sample_results) by (repeat constructor).
  split; [exact Hn|].
  exact (proj2 (X13_ranking_determined_by_scores_and_ties
                  sample_results sample_results Hn Hn
                  (fun _ _ => eq_refl))).
Defined.

(** ** More of the block and of the script *)

Definition odd_pdf : UploadedFile := pdf_file (lit "odd.pdf") [Some (lit "??")].

Section MoreScript.
Context {SK : Sklearn}.

Lemma more_views_after_extraction sw resumes job_description :
  let rest := snd (after_extraction sw resumes job_description) in
  warnings rest = [] /\ progress_of rest = [].
Proof.
  unfold after_extraction. cbv zeta.
  destruct (surviving_texts resumes) as [|text texts]; [now split|].
  destruct (fit _ _) as [f|e]; [|now split].
  destruct (more_views_display_events
              (sorted_results_of f job_description resumes))
    as [_ [_ [W [P _]]]].
  unfold warnings, progress_of in *. cbn [snd flat_map app].
  now rewrite W, P.
Qed.

(** X7. The script shows the warning exactly when no file is uploaded or
    the job description is empty, whatever the button. When an input is
    missing or the button is not pressed, the run ends normally and does
    nothing else: no file is read, nothing is fitted or ranked, and the
    cache is left as it was. *)
Theorem X7_warning_iff_input_missing (resumes : list UploadedFile)
    (job_description : str) (button : bool) (w : world) :
  let run := script resumes job_description button w in
  let out := emitted w (snd run) in
  (In please_upload (warnings out) <-> resumes = [] \/ job_description = [])
  /\ (resumes = [] \/ job_description = [] \/ button = false ->
      fst run = Done tt
      /\ cache_resource (snd run) = cache_resource w
      /\ (forall ev, In ev out -> ev = st_warning please_upload)).
Proof.
  cbv zeta. unfold script.
  destruct resumes as [|r rs]; [|destruct job_description as [|c jd]].
  - cbn [truthy_list andb negb orb]. rewrite emit_run. cbn [fst snd].
    rewrite emitted_add_events. split.
    + split; [now left | intros _; now left].
    + intros _. repeat split. intros ev [<-|[]]. reflexivity.
  - cbn [truthy_list truthy andb negb orb]. rewrite emit_run. cbn [fst snd].
    rewrite emitted_add_events. split.
    + split; [now right | intros _; now left].
    + intros _. repeat split. intros ev [<-|[]]. reflexivity.
  - cbn [truthy_list truthy andb negb orb]. destruct button.
    + split.
      * destruct (matching_outcome_events (r :: rs) (c :: jd) w) as [_ He].
        cbv zeta in He. rewrite He.
        destruct (more_views_extraction_events (r :: rs))
          as [_ [_ [W1 _]]].
        destruct (more_views_after_extraction
                    (stop_words (cached w)) (r :: rs) (c :: jd)) as [W2 _].
        unfold warnings in *. rewrite flat_map_app, W1, W2.
        split; [contradiction|]. intros [H|H]; discriminate.
      * intros [H|[H|H]]; discriminate.
    + unfold ret. cbn [fst snd]. rewrite emitted_same. split.
      * split; [contradiction|]. intros [H|H]; discriminate.
      * intros _. repeat split. contradiction.
Qed.

(** X8. When the block reaches the display, it shows one success message
    with the number of files kept, which is at least one, then one card
    for each of them with the ranks 1, 2, ... in order, and last the
    download button, whose rows are the rank, the document and the match
    score of the cards, in the same order. *)
Theorem X8_display_is_consistent (resumes : list UploadedFile)
    (job_description : str) (w : world) :
  let run := matching resumes job_description w in
  let out := emitted w (snd run) in
  fst run = Done tt ->
  let n := length (survivors resumes) in
  0 < n
  /\ successes out = [analysis_complete n]
  /\ map (fun '(idx, _, _, _) => idx) (ranked_of out) = seq 1 n
  /\ downloads out
     = [map (fun '(idx, document, score, _) => (idx, document, score))
          (ranked_of out)]
  /\ exists front rows, out = front ++ [st_download_button rows].
Proof.
  intros run out Hdone n.
  destruct (matching_outcome_events resumes job_description w) as [Ho He].
  fold run in Ho, He. fold out in He. rewrite Ho in Hdone.
  destruct (views_extraction_events resumes) as [R1 _].
  destruct (more_views_extraction_events resumes) as [S1 [D1 _]].
  unfold after_extraction in *. cbv zeta in *.
  pose proof (length_survivors resumes) as Hlen. fold n in Hlen.
  destruct (surviving_texts resumes) as [|text texts] eqn:Htexts;
    [discriminate|].
  destruct (fit _ _) as [f|e]; [|discriminate].
  set (sorted_results := sorted_results_of f job_description resumes) in *.
  destruct (views_display_events sorted_results) as [R2 _].
  destruct (more_views_display_events sorted_results) as [S2 [D2 _]].
  assert (Hn : length sorted_results = n)
    by apply length_sorted_results_of.
  unfold ranked_of, successes, downloads in *.
  rewrite He, !flat_map_app, R1, S1, D1. cbn [snd flat_map app].
  rewrite R2, S2, D2, Hn.
  repeat split.
  - rewrite Hlen. simpl. lia.
  - rewrite map_map, <- Hn, <- (map_fst_enumerate sorted_results 1).
    apply map_ext. now intros [idx r].
  - rewrite download_rows_enumerate, map_map. f_equal.
    apply map_ext. now intros [idx r].
  - exists (extraction_events resumes
            ++ call_fit_transform (stop_words (cached w))
                 (job_description :: text :: texts)
               :: st_success (analysis_complete (length sorted_results))
               :: map card_event (enumerate 1 sorted_results)),
           (download_rows sorted_results).
    unfold display_events. rewrite <- !app_assoc. reflexivity.
Qed.

(** X9. When the block halts, it has shown no card, no success message and
    no download button. The last error reported is about the batch: that
    no valid text was extracted when no file survives, in which case
    nothing was fitted and the cached vectorizer keeps the fitted state it
    had; and otherwise the exception raised by the one call to
    [fit_transform], in which case the cached vectorizer is left not
    fitted. *)
Theorem X9_halted_run_shows_errors_only (resumes : list UploadedFile)
    (job_description : str) (w : world) :
  let run := matching resumes job_description w in
  let out := emitted w (snd run) in
  fst run = Stop ->
  ranked_of out = [] /\ successes out = [] /\ downloads out = []
  /\ exists msg,
       error_messages out = parse_errors resumes ++ [msg]
       /\ ((surviving_texts resumes = [] /\ msg = no_valid_text
            /\ fit_calls out = []
            /\ fitted (cached (snd run)) = fitted (cached w))
           \/ (exists e,
                 surviving_texts resumes <> []
                 /\ fit (stop_words (cached w))
                      (job_description :: surviving_texts resumes) = Raise e
                 /\ msg = error_in_processing e
                 /\ length (fit_calls out) = 1
                 /\ fitted (cached (snd run)) = None)).
Proof.
  intros run out Hstop.
  destruct (matching_outcome_events resumes job_description w) as [Ho He].
  fold run in Ho, He. fold out in He. rewrite Ho in Hstop.
  pose proof (matching_cache resumes job_description w) as Hc.
  cbv zeta in Hc. fold run in Hc.
  destruct (views_extraction_events resumes) as [R1 [F1 E1]].
  destruct (more_views_extraction_events resumes) as [S1 [D1 _]].
  unfold after_extraction in *. cbv zeta in *.
  unfold ranked_of, successes, downloads, error_messages, fit_calls in *.
  rewrite He, !flat_map_app, R1, S1, D1, E1, F1.
  destruct (surviving_texts resumes) as [|text texts] eqn:Htexts.
  - cbn [snd flat_map app]. repeat split.
    exists no_valid_text. split; [reflexivity|]. left. repeat split.
    unfold cached at 1. now rewrite Hc.
  - destruct (fit _ _) as [f|e] eqn:Hfit; [discriminate|].
    cbn [snd flat_map app]. repeat split.
    exists (error_in_processing e). split; [reflexivity|]. right.
    exists e. repeat split; [discriminate|].
    unfold cached at 1. now rewrite Hc.
Qed.

(** X11. The files excluded from the ranking have no influence on it:
    the run on the whole batch and the run on the files kept alone call
    [fit_transform] on the same documents, end alike, and show the same
    success message, the same cards and the same rows for download. *)
Theorem X11_excluded_files_do_not_influence_ranking
    (resumes : list UploadedFile) (job_description : str) (w : world) :
  let run := matching resumes job_description w in
  let alone := matching (survivors resumes) job_description w in
  let out := emitted w (snd run) in
  let out' := emitted w (snd alone) in
  fst run = fst alone
  /\ fit_calls out = fit_calls out'
  /\ ranked_of out = ranked_of out'
  /\ successes out = successes out'
  /\ downloads out = downloads out'
  /\ cache_resource (snd run) = cache_resource (snd alone).
Proof.
  intros run alone out out'.
  destruct (matching_outcome_events resumes job_description w) as [Ho He].
  destruct (matching_outcome_events (survivors resumes) job_description w)
    as [Ho' He'].
  fold run in Ho, He. fold alone in Ho', He'.
  fold out in He. fold out' in He'.
  destruct (survivors_idempotent resumes) as [Hs Ht].
  assert (Hrest : after_extraction (stop_words (cached w))
                    (survivors resumes) job_description
                  = after_extraction (stop_words (cached w))
                      resumes job_description).
  { unfold after_extraction, sorted_results_of. now rewrite Hs, Ht. }
  rewrite Hrest in Ho', He'.
  destruct (views_extraction_events resumes) as [R1 [F1 _]].
  destruct (views_extraction_events (survivors resumes)) as [R1' [F1' _]].
  destruct (more_views_extraction_events resumes) as [S1 [D1 _]].
  destruct (more_views_extraction_events (survivors resumes))
    as [S1' [D1' _]].
  unfold ranked_of, fit_calls, successes, downloads in *.
  rewrite He, He', !flat_map_app, R1, R1', F1, F1', S1, S1', D1, D1'.
  repeat split; try congruence.
  unfold run, alone. rewrite !matching_cache. now rewrite Ht.
Qed.

(** X12. After a run of the block the cache holds a vectorizer, with the
    stop words of the one the run found or, if it found none, the English
    ones; [get_vectorizer] then returns this very object and changes
    nothing. The object has the fitted state it had before the run if no
    file survived, that of the corpus of the run if the fit succeeded, and
    none if the fit raised. *)
Theorem X12_vectorizer_is_built_once_and_kept
    (resumes : list UploadedFile) (job_description : str) (w : world) :
  let run := matching resumes job_description w in
  exists vectorizer,
    cache_resource (snd run) = Some vectorizer
    /\ get_vectorizer (snd run) = (Done vectorizer, snd run)
    /\ stop_words vectorizer = stop_words (cached w)
    /\ (cache_resource w = None -> stop_words vectorizer = lit "english")
    /\ fitted vectorizer
       = match surviving_texts resumes,
               fit (stop_words (cached w))
                 (job_description :: surviving_texts resumes) with
         | [], _ => fitted (cached w)
         | _ :: _, Ok f => Some f
         | _ :: _, Raise _ => None
         end.
Proof.
  intros run.
  pose proof (matching_cache resumes job_description w) as Hc.
  cbv zeta in Hc. fold run in Hc.
  eexists. split; [exact Hc|]. repeat split.
  - unfold get_vectorizer. rewrite Hc. reflexivity.
  - intros Hnone. unfold cached. simpl. now rewrite Hnone.
Qed.

End MoreScript.

(** ** The further properties on sample batches *)

(** A batch whose only text has neither letter nor digit, with a job
    description alike: fitting raises. *)
Definition odd_batch : list UploadedFile := [odd_pdf; blank_pdf].

Definition odd_query : str := lit "!!".

Lemma X5_loop_witness :
  map text_of (@nil UploadedFile) = []
  /\ exists valid_resumes' resume_texts' w',
       extraction_loop (SK := overlap_sklearn) 4 0 full_batch [] [] fresh
       = (Done (valid_resumes', resume_texts'), w')
       /\ map text_of valid_resumes' = resume_texts'
       /\ valid_resumes' = [chef_pdf; good_pdf].
Proof.
  split; [reflexivity|].
  destruct (X5_loop_keeps_files_and_texts_aligned (SK := overlap_sklearn)
              full_batch 4 0 [] [] fresh eq_refl (Forall_nil _))
    as [valid [texts [w' [Hrun [Halign [_ [_ [Hvalid _]]]]]]]].
  exists valid, texts, w'. split; [exact Hrun|]. split; [exact Halign|].
  exact Hvalid.
Defined.

Lemma X7_warning_witness :
  let run := script (SK := overlap_sklearn) [] sample_query true fresh in
  fst run = Done tt
  /\ cache_resource (snd run) = None
  /\ forall ev, In ev (emitted fresh (snd run)) ->
                ev = st_warning please_upload.
Proof.
  cbv zeta.
  exact (proj2 (X7_warning_iff_input_missing (SK := overlap_sklearn)
                  [] sample_query true fresh) (or_introl eq_refl)).
Defined.

Lemma X8_display_witness :
  let run := matching (SK := overlap_sklearn) full_batch sample_query fresh in
  let out := emitted fresh (snd run) in
  fst run = Done tt
  /\ successes out = [analysis_complete 2]
  /\ map (fun '(idx, _, _, _) => idx) (ranked_of out) = [1; 2].
Proof.
  cbv zeta. split; [reflexivity|].
  destruct (X8_display_is_consistent (SK := overlap_sklearn)
              full_batch sample_query fresh eq_refl)
    as [_ [Hs [Hr _]]].
  split; [exact Hs | exact Hr].
Defined.

Lemma X9_halted_witness :
  let run := matching (SK := overlap_sklearn) odd_batch odd_query used in
  let out := emitted used (snd run) in
  fst run = Stop
  /\ map text_of odd_batch = [lit "??"; []]
  /\ fitted (cached used) <> None
  /\ ranked_of out = [] /\ successes out = [] /\ downloads out = []
  /\ fitted (cached (snd run)) = None.
Proof.
  cbv zeta. split; [reflexivity|]. split; [reflexivity|].
  split; [discriminate|].
  destruct (X9_halted_run_shows_errors_only (SK := overlap_sklearn)
              odd_batch odd_query used eq_refl)
    as [Hr [Hs [Hd [msg [_ [[Hnone _]|[e [_ [_ [_ [_ Hf]]]]]]]]]]].
  - discriminate Hnone.
  - split; [exact Hr|]. split; [exact Hs|]. split; [exact Hd|]. exact Hf.
Defined.

Lemma X12_vectorizer_witness :
  let run := matching (SK := overlap_sklearn) full_batch sample_query fresh in
  cache_resource (SK := overlap_sklearn) fresh = None
  /\ exists vectorizer,
       cache_resource (snd run) = Some vectorizer
       /\ get_vectorizer (snd run) = (Done vectorizer, snd run)
       /\ stop_words vectorizer = lit "english".
Proof.
  cbv zeta. split; [reflexivity|].
  destruct (X12_vectorizer_is_built_once_and_kept (SK := overlap_sklearn)
              full_batch sample_query fresh)
    as [v [Hc [Hg [_ [He _]]]]].
  exists v. split; [exact Hc|]. split; [exact Hg|]. apply He. reflexivity.
Defined.

(** ** Documents without text *)

(** A page without text: [extract_text()] answers [None], or a string of
    whitespace only (the empty string included). *)
Definition blank_page (page : Page) : Prop :=
  page_extract_text page = Ok None
  \/ exists s, page_extract_text page = Ok (Some s)
               /\ forallb isspace s = true.

(** A scan: pages without text, one of them with a line break only. *)
Definition scanned_pdf : UploadedFile :=
  pdf_file (lit "scan.pdf") [None; Some [32; 10]%N; None].

Lemma join_whitespace (sep : str) (parts : list str) :
  forallb isspace sep = true ->
  Forall (fun part => forallb isspace part = true) parts ->
  forallb isspace (join sep parts) = true.
Proof.
  intros Hsep. induction 1 as [|part parts Hpart _ IH]; [reflexivity|].
  destruct parts as [|next parts]; [exact Hpart|].
  change (join sep (part :: next :: parts))
    with (part ++ sep ++ join sep (next :: parts)).
  now rewrite !forallb_app, Hpart, Hsep, IH.
Qed.

Lemma comprehension_blank_pages pages :
  Forall blank_page pages ->
  exists texts,
    comprehension
      (fun page => (x <-? page_extract_text page ; Ok (or_empty x))%result)
      pages = Ok texts
    /\ Forall (fun text => forallb isspace text = true) texts.
Proof.
  induction 1 as [|page pages Hpage _ [texts [IH1 IH2]]]; simpl.
  - exists []. split; constructor.
  - destruct Hpage as [Hnone|[s [Hs Hspace]]].
    + exists ([] :: texts). rewrite Hnone, IH1. simpl.
      split; [reflexivity|]. now constructor.
    + exists (or_empty (Some s) :: texts). rewrite Hs, IH1.
      split; [reflexivity|].
      constructor; [now rewrite or_empty_Some|exact IH2].
Qed.

Section BlankDocuments.
Context {SK : Sklearn}.

(** X14. A file named [*.pdf] that opens and whose pages all are without
    text (no page at all included) gives the empty string, and
    [extract_text] reports nothing about it: the extraction ended as
    Empty, and the loop drops the file without a message. *)
Theorem X14_pdf_without_text_is_dropped_silently (file : UploadedFile)
    (pages : list Page) (w : world) :
  endswith (name file) (lit ".pdf") = true ->
  pdfplumber_open file = Ok pages ->
  Forall blank_page pages ->
  extract_text file w = (Done [], w)
  /\ extraction_status file = Empty
  /\ forall len_resumes i valid_resumes resume_texts,
       extraction_loop len_resumes i [file] valid_resumes resume_texts w
       = (Done (valid_resumes, resume_texts),
          add_events w [st_progress (i + 1) len_resumes (processing file)]).
Proof.
  intros Hname Hopen Hblank.
  destruct (comprehension_blank_pages pages Hblank) as [texts [Hc Hspace]].
  assert (Hbody : extract_text_body file = Ok []).
  { unfold extract_text_body. rewrite Hname, Hopen. cbn [rbind].
    rewrite Hc. cbn [rbind]. f_equal.
    apply strip_whitespace, join_whitespace; [reflexivity|exact Hspace]. }
  assert (Ht : text_of file = []) by (unfold text_of; now rewrite Hbody).
  assert (He : errors_of file = []) by (unfold errors_of; now rewrite Hbody).
  repeat split.
  - now rewrite extract_text_run, Ht, He, add_events_nil.
  - unfold extraction_status. now rewrite Hbody.
  - intros n i vr rt. rewrite extraction_loop_run.
    unfold survivors, surviving_texts. simpl. rewrite Ht, He. simpl.
    now rewrite !app_nil_r.
Qed.

End BlankDocuments.

Lemma X14_scan_witness :
  endswith (name scanned_pdf) (lit ".pdf") = true
  /\ extract_text (SK := overlap_sklearn) scanned_pdf fresh = (Done [], fresh)
  /\ extraction_status scanned_pdf = Empty.
Proof.
  split; [reflexivity|].
  refine (let H := X14_pdf_without_text_is_dropped_silently
                     (SK := overlap_sklearn) scanned_pdf
                     (map (fun text => {| page_extract_text := Ok text |})
                        [None; Some [32; 10]%N; None])
                     fresh eq_refl eq_refl _ in
          conj (proj1 H) (proj1 (proj2 H))).
  constructor; [now left|].
  constructor; [right; eexists; split; reflexivity|].
  constructor; [now left|constructor].
Defined.

(** * The similarity score *)

(** The script takes its scores from [cosine_similarity] of scikit-learn,
    which is not part of the repository. This part follows the description
    of the scorer in the specification, in binary64 arithmetic, the sums
    being taken from left to right. It can stand for [cosine] in an
    instance of [Sklearn] whose vectors are lists of floats. *)

Definition fadd : float -> float -> float := SFadd prec emax.
Definition fsqrt : float -> float := SFsqrt prec emax.
Definition f0 : float := S754_zero false.
Definition f1 : float := Eval cbv in of_Z 1.

(** Modelled from the spec: the dot product of two vectors, which the
    scorer of section 4.3 divides by the product of the norms; the scorer
    itself (scikit-learn's [cosine_similarity]) is missing from the
    sources. *)
Definition spec_dot (a b : list float) : float :=
  fold_left (fun acc xy => fadd acc (mul (fst xy) (snd xy))) (combine a b) f0.

(** Modelled from the spec: the L2 norm of a vector (sections 4.2 and
    4.3); the vectorizer and the scorer are missing from the sources. *)
Definition spec_l2_norm (a : list float) : float := fsqrt (spec_dot a a).

(** Modelled from the spec: the L2 normalisation that the vectorizer of
    section 4.2 applies to its vectors; the vectorizer (scikit-learn's
    [TfidfVectorizer]) is missing from the sources. *)
Definition spec_l2_normalize (a : list float) : list float :=
  map (fun x => div x (spec_l2_norm a)) a.

(** Modelled from the spec: the zero vector of the edge case of section
    4.3. *)
Definition is_zero_vector (a : list float) : bool :=
  forallb (fun x => SFeqb x f0) a.

(** Modelled from the spec: the scorer of section 4.3, "dot product
    divided by product of L2 norms", the similarity being 0 when the
    candidate vector is the zero vector; scikit-learn's
    [cosine_similarity], which the script calls, is missing from the
    sources. *)
Definition spec_cosine (q c : list float) : float :=
  if is_zero_vector c then f0
  else div (spec_dot q c) (mul (spec_l2_norm q) (spec_l2_norm c)).

(** [0 <= x]. *)
Definition non_negative (x : float) : Prop := SFleb f0 x = true.

(** The sign bit of [x] is not set, or [x] is not a number. *)
Definition sign_clear (x : float) : bool :=
  match x with
  | S754_nan => true
  | S754_zero s | S754_infinity s | S754_finite s _ _ => negb s
  end.

(** Three terms of equal weight, normalised. *)
Definition equal_weights : list float := spec_l2_normalize [f1; f1; f1].

Lemma binary_round_aux_sign p e sx mx ex lx :
  match binary_round_aux p e sx mx ex lx with
  | S754_nan => True
  | S754_zero s | S754_infinity s | S754_finite s _ _ => s = sx
  end.
Proof.
  unfold binary_round_aux.
  destruct (shr_fexp p e mx ex lx) as [mrs' e'].
  destruct (shr_fexp p e _ e' loc_Exact) as [mrs'' e''].
  destruct (shr_m mrs''); trivial.
  destruct (Z.leb e'' (Z.sub e p)); reflexivity.
Qed.

Lemma binary_round_aux_clear p e mx ex lx :
  sign_clear (binary_round_aux p e false mx ex lx) = true.
Proof.
  pose proof (binary_round_aux_sign p e false mx ex lx) as H.
  destruct (binary_round_aux p e false mx ex lx); simpl; trivial; now subst.
Qed.

Lemma binary_round_clear p e mx ex :
  sign_clear (binary_round p e false mx ex) = true.
Proof.
  unfold binary_round.
  destruct (shl_align mx ex _) as [mz ez]. apply binary_round_aux_clear.
Qed.

Lemma sign_clear_not_below x : sign_clear x = true -> ltb x f0 = false.
Proof. destruct x as [[]|[]| |[] m e]; simpl; trivial; discriminate. Qed.

Lemma sign_clear_number x :
  sign_clear x = true -> is_nan x = false -> non_negative x.
Proof.
  unfold non_negative.
  destruct x as [[]|[]| |[] m e]; simpl; trivial; discriminate.
Qed.

Lemma mul_not_below x y :
  non_negative x -> non_negative y -> ltb (mul x y) f0 = false.
Proof.
  unfold non_negative.
  destruct x as [sx|[]| |[] mx ex], y as [sy|[]| |[] my ey];
    try discriminate; intros _ _;
    try (destruct sx); try (destruct sy); try reflexivity.
  apply sign_clear_not_below. unfold mul, SFmul.
  apply binary_round_aux_clear.
Qed.

Lemma fadd_clear acc p :
  sign_clear acc = true -> ltb p f0 = false -> sign_clear (fadd acc p) = true.
Proof.
  destruct acc as [[]|[]| |[] ma ea], p as [[]|[]| |[] mp ep];
    try discriminate; intros _ _; try reflexivity.
  unfold fadd, SFadd. cbn [cond_Zopp Z.add].
  unfold binary_normalize. apply binary_round_clear.
Qed.

Lemma fsqrt_clear x : sign_clear x = true -> sign_clear (fsqrt x) = true.
Proof.
  destruct x as [[]|[]| |[] m e]; try discriminate; intros _;
    try reflexivity.
  unfold fsqrt, SFsqrt.
  destruct (SFsqrt_core_binary prec emax (Zpos m) e) as [[mz ez] lz].
  apply binary_round_aux_clear.
Qed.

Lemma mul_clear x y :
  sign_clear x = true -> sign_clear y = true -> sign_clear (mul x y) = true.
Proof.
  destruct x as [[]|[]| |[] mx ex], y as [[]|[]| |[] my ey];
    try discriminate; intros _ _; try reflexivity.
  unfold mul, SFmul. apply binary_round_aux_clear.
Qed.

Lemma div_clear x y :
  sign_clear x = true -> sign_clear y = true -> sign_clear (div x y) = true.
Proof.
  destruct x as [[]|[]| |[] mx ex], y as [[]|[]| |[] my ey];
    try discriminate; intros _ _; try reflexivity.
  unfold div, SFdiv.
  destruct (SFdiv_core_binary prec emax (Zpos mx) ex (Zpos my) ey)
    as [[mz ez] lz].
  apply binary_round_aux_clear.
Qed.

Lemma spec_dot_clear a b :
  Forall non_negative a -> Forall non_negative b ->
  sign_clear (spec_dot a b) = true.
Proof.
  intros Ha Hb. unfold spec_dot.
  assert (Hpairs : Forall (fun xy => non_negative (fst xy)
                                     /\ non_negative (snd xy))
                     (combine a b)).
  { apply Forall_forall. intros [x y] Hin. rewrite Forall_forall in Ha, Hb.
    split; [apply Ha; eapply in_combine_l | apply Hb; eapply in_combine_r];
      exact Hin. }
  assert (G : forall acc, sign_clear acc = true ->
            sign_clear
              (fold_left (fun acc xy => fadd acc (mul (fst xy) (snd xy)))
                 (combine a b) acc) = true).
  { induction Hpairs as [|[x y] pairs [Hx Hy] _ IH]; intros acc Hacc;
      [exact Hacc|].
    simpl. apply IH. apply fadd_clear; [exact Hacc|].
    now apply mul_not_below. }
  now apply G.
Qed.

Lemma spec_cosine_clear q c :
  Forall non_negative q -> Forall non_negative c ->
  sign_clear (spec_cosine q c) = true.
Proof.
  intros Hq Hc. unfold spec_cosine.
  destruct (is_zero_vector c); [reflexivity|].
  apply div_clear; [now apply spec_dot_clear|].
  apply mul_clear; apply fsqrt_clear; now apply spec_dot_clear.
Qed.

(** C6, as a scorer in binary64 has it. For a query and a candidate whose
    vectors have no negative component, the score is never below 0, and is
    at least 0 whenever it is a number; and a candidate whose vector is
    the zero vector gets the score 0 exactly, not an error. That the score
    is at most 1 does not hold. *)
Theorem C6_score_not_below_zero_and_zero_vector_scores_zero
    (q c : list float) :
  Forall non_negative q -> Forall non_negative c ->
  ltb (spec_cosine q c) f0 = false
  /\ (is_nan (spec_cosine q c) = false -> non_negative (spec_cosine q c))
  /\ (is_zero_vector c = true -> spec_cosine q c = f0).
Proof.
  intros Hq Hc. pose proof (spec_cosine_clear q c Hq Hc) as H.
  repeat split.
  - now apply sign_clear_not_below.
  - now apply sign_clear_number.
  - intros Hz. unfold spec_cosine. now rewrite Hz.
Qed.

(** C6 fails as stated: the score of a candidate with the same three
    terms of equal weight as the query is [1 + 2^-52], which is above 1. *)
Lemma C6_score_above_one :
  Forall non_negative equal_weights
  /\ spec_cosine equal_weights equal_weights
     = S754_finite false 4503599627370497 (-52)
  /\ ltb f1 (spec_cosine equal_weights equal_weights) = true
  /\ ~ (SFleb f0 (spec_cosine equal_weights equal_weights) = true
        /\ SFleb (spec_cosine equal_weights equal_weights) f1 = true).
Proof.
  split; [repeat constructor|]. split; [reflexivity|].
  split; [reflexivity|].
  intros [_ H]. vm_compute in H. discriminate.
Qed.

Lemma C6_score_witness :
  Forall non_negative equal_weights
  /\ Forall non_negative [f0; f0; f0]
  /\ is_zero_vector [f0; f0; f0] = true
  /\ spec_cosine equal_weights [f0; f0; f0] = f0
  /\ ltb (spec_cosine equal_weights equal_weights) f0 = false.
Proof.
  assert (Hq : Forall non_negative equal_weights) by (repeat constructor).
  assert (Hc : Forall non_negative [f0; f0; f0]) by (repeat constructor).
  split; [exact Hq|]. split; [exact Hc|]. split; [reflexivity|].
  split.
  - exact (proj2 (proj2
             (C6_score_not_below_zero_and_zero_vector_scores_zero
                equal_weights [f0; f0; f0] Hq Hc)) eq_refl).
  - exact (proj1 (C6_score_not_below_zero_and_zero_vector_scores_zero
                    equal_weights equal_weights Hq Hq)).
Defined.
